(** * BookFinder: the search-and-render flow of [src/components/BookFinder.tsx]

    A shallow embedding of the React component [BookFinder]: its five
    [useState] cells, the asynchronous handler [searchBooks] (split at its
    two [await] points into the part that runs inside the event handler and
    the continuation that runs when the [fetch] promise settles), the key
    handler [handleKeyPress], the helpers [getCoverUrl] and [getBookUrl],
    and the result cards of the JSX tree.

    JavaScript strings are sequences of UTF-16 code units; they are modelled
    as [list N].  The two library functions the handler relies on,
    [String.prototype.trim] and [encodeURIComponent], are written out after
    ECMA-262. *)

From Stdlib Require Import DecimalString.
From Stdlib Require DecimalZ DecimalPos.
From stdpp Require Import gmap list strings.

(** ** JavaScript strings *)

Module Js.

(** A string value: its UTF-16 code units, in order. *)
Definition str := list N.

(** An ASCII literal of the source as a JavaScript string. *)
Definition lit (s : string) : str :=
  map Ascii.N_of_ascii (String.list_ascii_of_string s).

(** ECMA-262 [WhiteSpace] and [LineTerminator] code points, the ones
    [trim] strips: TAB, VT, FF, SP, NBSP, ZWNBSP, the category Zs, and
    LF, CR, LS, PS. *)
Definition isWhiteSpace (c : N) : bool :=
  ((c =? 0x09) || (c =? 0x0A) || (c =? 0x0B) || (c =? 0x0C) || (c =? 0x0D)
   || (c =? 0x20) || (c =? 0xA0) || (c =? 0x1680)
   || ((0x2000 <=? c) && (c <=? 0x200A))
   || (c =? 0x2028) || (c =? 0x2029) || (c =? 0x202F) || (c =? 0x205F)
   || (c =? 0x3000) || (c =? 0xFEFF))%N.

Fixpoint trimStart (s : str) : str :=
  match s with
  | [] => []
  | c :: s' => if isWhiteSpace c then trimStart s' else s
  end.

Definition trimEnd (s : str) : str := rev (trimStart (rev s)).

(** [String.prototype.trim]. *)
Definition trim (s : str) : str := trimEnd (trimStart s).

(** ToBoolean on a string: the empty string is the only falsy one. *)
Definition truthy (s : str) : bool :=
  match s with [] => false | _ :: _ => true end.

(** A search term the user would call empty: nothing but white space. *)
Definition blank (s : str) : bool := forallb isWhiteSpace s.

(** *** [encodeURIComponent] *)

Definition in_range (lo hi c : N) : bool := ((lo <=? c) && (c <=? hi))%N.

(** uriAlpha, DecimalDigit and uriMark: the characters left as they are. *)
Definition uriUnescaped (c : N) : bool :=
  in_range 0x41 0x5A c || in_range 0x61 0x7A c || in_range 0x30 0x39 c
  || ((c =? 0x2D) || (c =? 0x5F) || (c =? 0x2E) || (c =? 0x21)
      || (c =? 0x7E) || (c =? 0x2A) || (c =? 0x27) || (c =? 0x28)
      || (c =? 0x29))%N.

Definition isLeadSurrogate (c : N) : bool := in_range 0xD800 0xDBFF c.
Definition isTrailSurrogate (c : N) : bool := in_range 0xDC00 0xDFFF c.

Definition hexDigit (d : N) : N :=
  (if d <? 10 then 0x30 + d else 0x41 + (d - 10))%N.

(** One octet as ["%XX"], upper-case hexadecimal. *)
Definition pct (b : N) : str :=
  [0x25%N; hexDigit (N.shiftr b 4); hexDigit (N.land b 0xF)].

Definition utf8 (cp : N) : list N :=
  (if cp <? 0x80 then [cp]
   else if cp <? 0x800 then
     [N.lor 0xC0 (N.shiftr cp 6); N.lor 0x80 (N.land cp 0x3F)]
   else if cp <? 0x10000 then
     [N.lor 0xE0 (N.shiftr cp 12);
      N.lor 0x80 (N.land (N.shiftr cp 6) 0x3F);
      N.lor 0x80 (N.land cp 0x3F)]
   else
     [N.lor 0xF0 (N.shiftr cp 18);
      N.lor 0x80 (N.land (N.shiftr cp 12) 0x3F);
      N.lor 0x80 (N.land (N.shiftr cp 6) 0x3F);
      N.lor 0x80 (N.land cp 0x3F)])%N.

Definition escape (cp : N) : str := concat (map pct (utf8 cp)).

Definition pairCodePoint (hi lo : N) : N :=
  ((hi - 0xD800) * 0x400 + (lo - 0xDC00) + 0x10000)%N.

(** [encodeURIComponent s]: [None] stands for the [URIError] thrown on an
    unpaired surrogate. *)
Fixpoint encodeURIComponent (s : str) : option str :=
  match s with
  | [] => Some []
  | c :: rest =>
      if uriUnescaped c then cons c <$> encodeURIComponent rest
      else if isTrailSurrogate c then None
      else if isLeadSurrogate c then
        match rest with
        | d :: rest' =>
            if isTrailSurrogate d
            then app (escape (pairCodePoint c d)) <$> encodeURIComponent rest'
            else None
        | [] => None
        end
      else app (escape c) <$> encodeURIComponent rest
  end.

(** No code unit of [s] is an unpaired surrogate. *)
Fixpoint wellFormed (s : str) : bool :=
  match s with
  | [] => true
  | c :: rest =>
      if isTrailSurrogate c then false
      else if isLeadSurrogate c then
        match rest with
        | d :: rest' => isTrailSurrogate d && wellFormed rest'
        | [] => false
        end
      else wellFormed rest
  end.

(** What a URL query component may hold after encoding: an unescaped
    character, or the ["%"] and hexadecimal digits of an escape. *)
Definition urlSafe (c : N) : bool :=
  uriUnescaped c || (c =? 0x25)%N.

(** *** Numbers in template literals

    The numbers the component prints ([numFound], [cover_i], lengths) are
    integers and are modelled as [Z].  Number::toString prints an integer
    of magnitude at most 2^53 - 1 (a safe integer, each of which is a
    Number of its own) as its decimal numeral, which is what [ofZ] gives.
    Larger Numbers are printed from the shortest digits that identify the
    double (2^60 ends in 847000) and, from 10^21 on, in exponent notation
    (1e+21); [ofZ] is not their text, and the theorems that print a number
    received from the catalog assume [safeInteger].  Array lengths are
    below 2^32. *)
Definition ofZ (z : Z) : str := lit (NilZero.string_of_int (Z.to_int z)).
Definition ofNat (n : nat) : str := ofZ (Z.of_nat n).

(** [Number.isSafeInteger], on an integer. *)
Definition safeInteger (z : Z) : bool := (Z.abs z <=? 2 ^ 53 - 1)%Z.

(** The integer a decimal numeral denotes, if the text is one. *)
Definition numeralValue (digits : string) : option Z :=
  Z.of_int <$> NilZero.int_of_string digits.

End Js.

Import Js.

(** ** Data of the component *)

(** [interface Book]: optional fields are [option]s. *)
Record Book := {
  key : str;
  title : str;
  author_name : option (list str);
  first_publish_year : option Z;
  isbn : option (list str);
  cover_i : option Z;
  subject : option (list str);
  publisher : option (list str);
  language : option (list str);
  edition_count : option Z
}.

(** [interface SearchResponse]. *)
Record SearchResponse := {
  docs : list Book;
  numFound : Z
}.

(** The union type of [searchType]. *)
Inductive SearchType := Title | Author | Subject.

Definition typeName (t : SearchType) : str :=
  match t with
  | Title => lit "title"
  | Author => lit "author"
  | Subject => lit "subject"
  end.

(** The five [useState] cells. *)
Record State := {
  searchQuery : str;
  searchType : SearchType;
  books : list Book;
  loading : bool;
  hasSearched : bool
}.

Definition initialState : State :=
  {| searchQuery := []; searchType := Title; books := [];
     loading := false; hasSearched := false |}.

(** ** Effects: notices, requests, the console *)

Inductive Variant := Default | Destructive.

(** The argument of [toast]. *)
Record Toast := {
  toast_title : str;
  toast_description : str;
  toast_variant : Variant
}.

Inductive Method := GET.

(** A call of [fetch]: with no init argument it is a GET. *)
Record Request := {
  req_method : Method;
  req_url : str
}.

(** A thrown value. *)
Record JsError := {
  err_name : str;
  err_message : str
}.

(** How the promise chain [fetch(...)] then [response.json()] can end:
    [fetch] rejects; or a response arrives with its [ok] flag and, when the
    body is read, [json()] rejects or yields the parsed data. *)
Inductive FetchOutcome :=
| Rejected (e : JsError)
| Responded (ok : bool) (body : JsError + SearchResponse).

(** A call of [searchBooks] suspended at [await fetch(...)].  Its closure
    holds the [searchType] of the render it was started from; the URL it
    asked for is kept with it. *)
Record InFlight := {
  flight_type : SearchType;
  flight_url : str
}.

(** The component together with its surroundings: the calls in flight,
    keyed by the order in which they were started, and what has been sent
    to the toaster, the network and the console so far. *)
Record World := {
  ui : State;
  inflight : gmap nat InFlight;
  issued : nat;
  toasts : list Toast;
  requests : list Request;
  console : list (str * JsError)
}.

Definition initialWorld : World :=
  {| ui := initialState; inflight := ∅; issued := 0;
     toasts := []; requests := []; console := [] |}.

(** *** State setters and effectful calls, as world transformers *)

Definition withUi (f : State → State) (w : World) : World :=
  {| ui := f (ui w); inflight := inflight w; issued := issued w;
     toasts := toasts w; requests := requests w; console := console w |}.

Definition setSearchQuery (v : str) : World → World :=
  withUi (λ s, {| searchQuery := v; searchType := searchType s; books := books s;
                  loading := loading s; hasSearched := hasSearched s |}).

Definition setSearchType (t : SearchType) : World → World :=
  withUi (λ s, {| searchQuery := searchQuery s; searchType := t; books := books s;
                  loading := loading s; hasSearched := hasSearched s |}).

Definition setBooks (bs : list Book) : World → World :=
  withUi (λ s, {| searchQuery := searchQuery s; searchType := searchType s;
                  books := bs; loading := loading s;
                  hasSearched := hasSearched s |}).

Definition setLoading (b : bool) : World → World :=
  withUi (λ s, {| searchQuery := searchQuery s; searchType := searchType s;
                  books := books s; loading := b;
                  hasSearched := hasSearched s |}).

Definition setHasSearched (b : bool) : World → World :=
  withUi (λ s, {| searchQuery := searchQuery s; searchType := searchType s;
                  books := books s; loading := loading s; hasSearched := b |}).

Definition toast (t : Toast) (w : World) : World :=
  {| ui := ui w; inflight := inflight w; issued := issued w;
     toasts := toasts w ++ [t]; requests := requests w; console := console w |}.

Definition console_error (label : str) (e : JsError) (w : World) : World :=
  {| ui := ui w; inflight := inflight w; issued := issued w;
     toasts := toasts w; requests := requests w;
     console := console w ++ [(label, e)] |}.

(** [fetch url]: the request goes out and the caller is suspended. *)
Definition fetch (url : str) (k : InFlight) (w : World) : World :=
  {| ui := ui w; inflight := <[issued w := k]> (inflight w);
     issued := S (issued w); toasts := toasts w;
     requests := requests w ++ [{| req_method := GET; req_url := url |}];
     console := console w |}.

(** The promise of call [i] has settled: it is no longer in flight. *)
Definition settled (i : nat) (w : World) : World :=
  {| ui := ui w; inflight := delete i (inflight w); issued := issued w;
     toasts := toasts w; requests := requests w; console := console w |}.

(** ** The component's functions *)

Inductive Size := SizeS | SizeM | SizeL.

Definition sizeTag (s : Size) : str :=
  match s with SizeS => lit "S" | SizeM => lit "M" | SizeL => lit "L" end.

(** [getCoverUrl]. *)
Definition getCoverUrl (coverId : Z) (size : Size) : str :=
  lit "https://covers.openlibrary.org/b/id/" ++ ofZ coverId ++ lit "-"
  ++ sizeTag size ++ lit ".jpg".

(** [getBookUrl]. *)
Definition getBookUrl (book : Book) : str :=
  lit "https://openlibrary.org" ++ key book.

Definition validationToast : Toast :=
  {| toast_title := lit "Please enter a search term";
     toast_description :=
       lit "Enter a book title, author, or subject to search.";
     toast_variant := Destructive |}.

Definition noBooksToast (t : SearchType) : Toast :=
  {| toast_title := lit "No books found";
     toast_description :=
       lit "Try searching with different " ++ typeName t ++ lit " terms.";
     toast_variant := Default |}.

Definition successToast (found : Z) : Toast :=
  {| toast_title := lit "Search successful!";
     toast_description :=
       lit "Found " ++ ofZ found ++ lit " books matching your search.";
     toast_variant := Default |}.

Definition failureToast : Toast :=
  {| toast_title := lit "Search failed";
     toast_description :=
       lit "There was an error searching for books. Please try again.";
     toast_variant := Destructive |}.

(** The [catch] block of [searchBooks]. *)
Definition searchBooks_catch (error : JsError) (w : World) : World :=
  toast failureToast (console_error (lit "Search error:") error w).

(** The [finally] block of [searchBooks]. *)
Definition searchBooks_finally (w : World) : World := setLoading false w.

Definition searchParam (t : SearchType) : str :=
  match t with
  | Title => lit "title"
  | Author => lit "author"
  | Subject => lit "subject"
  end.

Definition searchUrl (t : SearchType) (encoded : str) : str :=
  lit "https://openlibrary.org/search.json?" ++ searchParam t ++ lit "="
  ++ encoded ++ lit "&limit=20".

Definition uriError : JsError :=
  {| err_name := lit "URIError"; err_message := lit "URI malformed" |}.

(** [searchBooks], from its call to the first [await]: the guard on the
    trimmed term, the two setters, and inside [try] the URL and the call of
    [fetch].  When [encodeURIComponent] throws, [catch] and [finally] run
    at once and nothing is sent. *)
Definition searchBooks (w : World) : World :=
  let st := ui w in
  if negb (truthy (trim (searchQuery st))) then
    toast validationToast w
  else
    let w := setLoading true w in
    let w := setHasSearched true w in
    match encodeURIComponent (searchQuery st) with
    | Some encoded =>
        fetch (searchUrl (searchType st) encoded)
              {| flight_type := searchType st;
                 flight_url := searchUrl (searchType st) encoded |} w
    | None =>
        searchBooks_finally (searchBooks_catch uriError w)
    end.

(** The [try] block from [await fetch(...)] up to the parsed data: the
    rejection of [fetch], the [Error] thrown by the [!response.ok] test and
    the rejection of [response.json()] are thrown values ([inl]). *)
Definition searchBooks_await (o : FetchOutcome) : JsError + SearchResponse :=
  match o with
  | Rejected e => inl e
  | Responded false _ =>
      inl {| err_name := lit "Error"; err_message := lit "Failed to fetch books" |}
  | Responded true body => body
  end.

(** The value thrown inside [try] after the promise settled, if any. *)
Definition thrown (o : FetchOutcome) : option JsError :=
  match searchBooks_await o with
  | inl e => Some e
  | inr _ => None
  end.

(** [searchBooks], from [await fetch(...)] on: the rest of [try], then
    [catch] if something was thrown, then [finally]. *)
Definition searchBooks_resume (k : InFlight) (o : FetchOutcome) (w : World)
  : World :=
  let w :=
    match searchBooks_await o with
    | inr data =>
        let w := setBooks (docs data) w in
        if (length (docs data) =? 0)%nat
        then toast (noBooksToast (flight_type k)) w
        else toast (successToast (numFound data)) w
    | inl error => searchBooks_catch error w
    end in
  searchBooks_finally w.

(** [handleKeyPress], on the [key] of the event. *)
Definition handleKeyPress (k : str) (w : World) : World :=
  if decide (k = lit "Enter") then searchBooks w else w.

(** ** Events *)

Inductive Event :=
| Change (v : str)              (* onChange of the input *)
| SelectType (t : SearchType)   (* click on one of the three type buttons *)
| ClickSearch                   (* click on the search button *)
| KeyPress (k : str)            (* onKeyPress of the input *)
| Settle (i : nat) (o : FetchOutcome). (* the promise of call [i] settles *)

(** One event; [None] when it cannot happen: the search button is
    [disabled] while [loading], and only a call in flight can settle. *)
Definition step (w : World) (e : Event) : option World :=
  match e with
  | Change v => Some (setSearchQuery v w)
  | SelectType t => Some (setSearchType t w)
  | ClickSearch => if loading (ui w) then None else Some (searchBooks w)
  | KeyPress k => Some (handleKeyPress k w)
  | Settle i o =>
      match inflight w !! i with
      | Some k => Some (searchBooks_resume k o (settled i w))
      | None => None
      end
  end.

Fixpoint exec (w : World) (tr : list Event) : option World :=
  match tr with
  | [] => Some w
  | e :: tr' =>
      match step w e with
      | Some w' => exec w' tr'
      | None => None
      end
  end.

Definition reachable (w : World) : Prop :=
  ∃ tr, exec initialWorld tr = Some w.

(** ** The rendered tree *)

Inductive BadgeVariant := Secondary | Outline.

#[global] Instance BadgeVariant_eq_dec : EqDecision BadgeVariant.
Proof. solve_decision. Defined.

Record Badge := {
  badge_variant : BadgeVariant;
  badge_text : str
}.

(** What [{book.first_publish_year && (...)}] renders: nothing for
    [undefined], the bare number for [0], the paragraph otherwise. *)
Inductive YearView := NoYear | BareZero | YearLine (y : Z).

(** One card of the results grid. *)
Record CardView := {
  card_key : str;
  card_img : option str;            (* [src] of the [img], when there is one *)
  card_placeholder_hidden : bool;   (* class [hidden] on the placeholder *)
  card_title : str;
  card_authors : option str;
  card_year : YearView;
  card_subjects : option (list Badge);  (* the badge row, when rendered *)
  card_href : str
}.

(** ToBoolean on an optional number: [undefined] and [0] are falsy. *)
Definition truthyNum (n : option Z) : bool :=
  match n with
  | Some z => negb (z =? 0)%Z
  | None => false
  end.

(** [book.cover_i ? <img src={getCoverUrl(book.cover_i, 'M')} .../> : null] *)
Definition renderCover (b : Book) : option str :=
  if truthyNum (cover_i b)
  then (λ coverId, getCoverUrl coverId SizeM) <$> cover_i b
  else None.

Definition renderAuthors (b : Book) : option str :=
  match author_name b with
  | Some (first :: others) =>
      Some (first ++
            (if (1 <? length (first :: others))%nat
             then lit " +" ++ ofNat (length (first :: others) - 1) ++ lit " more"
             else []))
  | _ => None
  end.

Definition renderYear (b : Book) : YearView :=
  match first_publish_year b with
  | None => NoYear
  | Some y => if (y =? 0)%Z then BareZero else YearLine y
  end.

(** [book.subject.slice(0, 3).map(...)] followed by the [+n] badge when
    [book.subject.length > 3]; the row is rendered only for a non-empty
    list. *)
Definition renderSubjects (b : Book) : option (list Badge) :=
  match subject b with
  | Some subs =>
      if (0 <? length subs)%nat then
        Some (map (λ s, {| badge_variant := Secondary; badge_text := s |})
                  (take 3 subs)
              ++ (if (3 <? length subs)%nat
                  then [{| badge_variant := Outline;
                           badge_text := lit "+" ++ ofNat (length subs - 3) |}]
                  else []))
      else None
  | None => None
  end.

Definition renderCard (b : Book) : CardView :=
  {| card_key := key b;
     card_img := renderCover b;
     card_placeholder_hidden := truthyNum (cover_i b);
     card_title := title b;
     card_authors := renderAuthors b;
     card_year := renderYear b;
     card_subjects := renderSubjects b;
     card_href := getBookUrl b |}.

(** The parts of the page that depend on the state. *)
Record View := {
  view_placeholder : str;           (* placeholder of the input *)
  view_value : str;                 (* value of the input *)
  view_button_disabled : bool;
  view_button_label : str;
  view_skeletons : option nat;      (* the loading grid and its card count *)
  view_results : option (list CardView);
  view_no_results : bool;           (* the "No books found" panel *)
  view_welcome : bool
}.

Definition render (s : State) : View :=
  {| view_placeholder := lit "Search by " ++ typeName (searchType s) ++ lit "...";
     view_value := searchQuery s;
     view_button_disabled := loading s;
     view_button_label :=
       if loading s then lit "Searching..." else lit "Search";
     view_skeletons := if loading s then Some 8 else None;
     view_results :=
       if negb (loading s) && hasSearched s && (0 <? length (books s))%nat
       then Some (map renderCard (books s)) else None;
     view_no_results :=
       negb (loading s) && hasSearched s && (length (books s) =? 0)%nat;
     view_welcome := negb (hasSearched s) |}.

(** The image requests a card makes the browser issue: one per [img]. *)
Definition imageRequests (c : CardView) : list str :=
  match card_img c with
  | Some src => [src]
  | None => []
  end.

(** The subject labels of a card and its remainder labels, by badge
    variant. *)
Definition badgesOf (v : BadgeVariant) (c : CardView) : list str :=
  match card_subjects c with
  | Some bs =>
      map badge_text
          (filter (λ b, badge_variant b = v) bs)
  | None => []
  end.

Definition subjectLabels : CardView → list str := badgesOf Secondary.
Definition remainderLabels : CardView → list str := badgesOf Outline.

(** ** Notions the properties are stated with *)

(** The events that call [searchBooks]: a click on the search button and
    the Enter key in the input. *)
Definition invokesSearch (e : Event) : bool :=
  match e with
  | ClickSearch => true
  | KeyPress k => bool_decide (k = lit "Enter")
  | _ => false
  end.

(** The request as the specification words it: the field of the selected
    type and the encoding of the _trimmed_ term. *)
Definition specRequest (t : SearchType) (term : str) : option Request :=
  (λ encoded, {| req_method := GET; req_url := searchUrl t encoded |})
    <$> encodeURIComponent (trim term).

(** The claim as the specification states it. *)
Definition requestEncodesTrimmedTerm : Prop :=
  ∀ w : World,
    trim (searchQuery (ui w)) ≠ [] →
    ∃ r, specRequest (searchType (ui w)) (searchQuery (ui w)) = Some r
         ∧ requests (searchBooks w) = requests w ++ [r].

(** Whenever a call is in flight, a search has been started. *)
Definition searchedIfPending (w : World) : Prop :=
  ∀ i, is_Some (inflight w !! i) → hasSearched (ui w) = true.

Definition ok (data : SearchResponse) : FetchOutcome :=
  Responded true (inr data).

(** The record list an event stores: only a successful response stores
    one. *)
Definition applied (e : Event) : option (list Book) :=
  match e with
  | Settle _ (Responded true (inr data)) => Some (docs data)
  | _ => None
  end.

(** The record list of the last successful completion of a trace, or
    [start] when there is none. *)
Fixpoint lastApplied (tr : list Event) (start : list Book) : list Book :=
  match tr with
  | [] => start
  | e :: tr' => lastApplied tr' (default start (applied e))
  end.

(** The claim as the specification states it: when two searches overlap
    and the newer one completes first, the response of the older one, which
    arrives afterwards, is not applied to the stored records. *)
Definition staleResponseIgnored : Prop :=
  ∀ (w w1 w2 : World) (i j : nat) (oi oj : FetchOutcome),
    reachable w →
    i < j →
    is_Some (inflight w !! i) →
    is_Some (inflight w !! j) →
    step w (Settle j oj) = Some w1 →
    step w1 (Settle i oi) = Some w2 →
    books (ui w2) = books (ui w1).

(** The claim as the specification states it: a record whose cover id is
    present gets an image whose URL is the template at that id and at one
    of the three sizes. *)
Definition coverShownWheneverPresent : Prop :=
  ∀ (b : Book) (coverId : Z),
    cover_i b = Some coverId →
    ∃ size, card_img (renderCard b) = Some (getCoverUrl coverId size).

(** The [Error] thrown by the [!response.ok] test. *)
Definition statusError : JsError :=
  {| err_name := lit "Error"; err_message := lit "Failed to fetch books" |}.

(** The claim as the specification states it: a search that fails puts the
    component in a Failed state of its own, which is not the state a
    successful search without records leaves. *)
Definition failureEntersErrorState : Prop :=
  ∀ (w wf we : World) (i : nat) (body : JsError + SearchResponse)
    (data : SearchResponse),
    reachable w →
    docs data = [] →
    step w (Settle i (Responded false body)) = Some wf →
    step w (Settle i (ok data)) = Some we →
    ui wf ≠ ui we.

Definition secondaryBadge (s : str) : Badge :=
  {| badge_variant := Secondary; badge_text := s |}.

(** ** Scenarios *)

Definition blankWorld : World := setSearchQuery (lit "   ") initialWorld.

Definition paddedWorld : World := setSearchQuery (lit " a") initialWorld.

Definition tolkienWorld : World :=
  setSearchType Author (setSearchQuery (lit "Tolkien") initialWorld).

Definition book (k : string) (cover : option Z) (subs : option (list str)) : Book :=
  {| key := lit k; title := lit k; author_name := None;
     first_publish_year := None; isbn := None; cover_i := cover;
     subject := subs; publisher := None; language := None;
     edition_count := None |}.

(** Author search for "Tolkien", waiting for its response. *)
Definition tolkienTrace : list Event :=
  [Change (lit "Tolkien"); SelectType Author; ClickSearch].

Definition tolkienPending : World := searchBooks tolkienWorld.

Definition fiveDocs : SearchResponse :=
  {| docs := [book "/works/1" None None; book "/works/2" None None;
              book "/works/3" None None; book "/works/4" None None;
              book "/works/5" None None];
     numFound := 5 |}.

Definition noDocs : SearchResponse := {| docs := []; numFound := 0 |}.

(** Five records shown out of 1234 matches. *)
Definition manyFound : SearchResponse :=
  {| docs := docs fiveDocs; numFound := 1234 |}.

(** A response with status 500 and a body that is not JSON. *)
Definition serverError : FetchOutcome :=
  Responded false
    (inl {| err_name := lit "SyntaxError";
            err_message := lit "Unexpected token" |}).

Definition networkError : JsError :=
  {| err_name := lit "TypeError"; err_message := lit "Failed to fetch" |}.

(** "Tolkien" answered with five records, then a second search that is
    started and fails. *)
Definition failingTrace : list Event :=
  tolkienTrace
  ++ [Settle 0 (ok fiveDocs); Change (lit "Hobbit"); KeyPress (lit "Enter")].

Definition failingWorld : World :=
  default initialWorld (exec initialWorld failingTrace).

(** Search "a", then, while it is pending, search "b" with the Enter key. *)
Definition overlapTrace : list Event :=
  [Change (lit "a"); KeyPress (lit "Enter");
   Change (lit "b"); KeyPress (lit "Enter")].

Definition overlapWorld : World :=
  default initialWorld (exec initialWorld overlapTrace).

Definition docsA : SearchResponse :=
  {| docs := [book "/works/A" None None]; numFound := 1 |}.
Definition docsB : SearchResponse :=
  {| docs := [book "/works/B" None None]; numFound := 1 |}.

Definition fiveSubjects : list str :=
  [lit "Fantasy"; lit "Fiction"; lit "Elves"; lit "Rings"; lit "Wizards"].

(** ** Notions for the properties of whole runs *)

(** Typing, choosing a type and pressing a key other than Enter. *)
Definition editing (e : Event) : bool :=
  match e with
  | Change _ | SelectType _ => true
  | KeyPress k => negb (bool_decide (k = lit "Enter"))
  | _ => false
  end.

(** Every event but the Enter key. *)
Definition notEnter (e : Event) : bool :=
  match e with
  | KeyPress k => negb (bool_decide (k = lit "Enter"))
  | _ => true
  end.

(** How many times a run invokes a search. *)
Fixpoint invocations (tr : list Event) : nat :=
  match tr with
  | [] => 0
  | e :: tr' => (if invokesSearch e then 1 else 0) + invocations tr'
  end.

Definition shown {A : Type} (o : option A) : bool :=
  match o with Some _ => true | None => false end.

(** How many of the four state panels (loading grid, results grid,
    "No books found", welcome) a view shows. *)
Definition panelsShown (v : View) : nat :=
  (if shown (view_skeletons v) then 1 else 0)
  + (if shown (view_results v) then 1 else 0)
  + (if view_no_results v then 1 else 0)
  + (if view_welcome v then 1 else 0).

(** The characters that structure a URL and its query:
    space, [#], [&], [+], [/], [=], [?]. *)
Definition queryDelimiter (c : N) : bool :=
  bool_decide (c ∈ [0x20; 0x23; 0x26; 0x2B; 0x2F; 0x3D; 0x3F]%N).

Definition catalogEndpoint : str := lit "https://openlibrary.org/search.json?".

(** A request to the catalog search endpoint, limited to 20 results. *)
Definition catalogRequest (r : Request) : Prop :=
  req_method r = GET
  ∧ ∃ middle, req_url r = catalogEndpoint ++ middle ++ lit "&limit=20".

Definition malformedWorld : World := setSearchQuery [0xD83D%N] initialWorld.

Definition threeAuthors : Book :=
  {| key := lit "/works/OL1W"; title := lit "The Hobbit";
     author_name := Some [lit "J.R.R. Tolkien"; lit "Alan Lee"; lit "Douglas Anderson"];
     first_publish_year := Some 1937%Z; isbn := None; cover_i := Some 42%Z;
     subject := None; publisher := None; language := None;
     edition_count := None |}.

(** ** Facts about the string functions *)

(** Boolean tests on code units, as propositions [lia] understands. *)
Ltac unbool :=
  repeat match goal with
    | H : (_ || _) = true |- _ => apply orb_prop in H as [H|H]
    | H : (_ && _) = true |- _ => apply andb_prop in H as [? ?]
    | H : (_ =? _)%N = true |- _ => apply N.eqb_eq in H
    | H : (_ <=? _)%N = true |- _ => apply N.leb_le in H
    | H : (_ <? _)%N = true |- _ => apply N.ltb_lt in H
    | H : (_ <? _)%N = false |- _ => apply N.ltb_ge in H
    end.

Section StringFacts.

Lemma trimStart_blank (s : str) : blank s = true → trimStart s = [].
Proof.
  induction s as [|c s IH]; simpl; [done|].
  intros [Hc Hs]%andb_prop. rewrite Hc. auto.
Qed.

Lemma trimStart_nil_blank (s : str) : trimStart s = [] → blank s = true.
Proof.
  induction s as [|c s IH]; simpl; [done|].
  destruct (isWhiteSpace c); [auto | discriminate].
Qed.

Lemma blank_app (s t : str) : blank (s ++ t) = blank s && blank t.
Proof. apply forallb_app. Qed.

Lemma blank_rev (s : str) : blank (rev s) = blank s.
Proof.
  induction s as [|c s IH]; simpl; [done|].
  rewrite blank_app, IH. simpl. rewrite andb_true_r. apply andb_comm.
Qed.

(** What [trimStart] leaves is empty or starts with a visible character,
    so it is blank only when it is empty. *)
Lemma trimStart_fixed (s : str) :
  blank (trimStart s) = true → trimStart s = [].
Proof.
  induction s as [|c s IH]; simpl; [done|].
  destruct (isWhiteSpace c) eqn:Hc; [exact IH|].
  simpl. rewrite Hc. discriminate.
Qed.

Lemma trim_blank (s : str) : blank s = true → trim s = [].
Proof.
  intros H. unfold trim, trimEnd. by rewrite (trimStart_blank s H).
Qed.

Lemma trim_nil_blank (s : str) : trim s = [] → blank s = true.
Proof.
  unfold trim, trimEnd. intros H.
  apply trimStart_nil_blank, trimStart_fixed.
  rewrite <- blank_rev. apply trimStart_nil_blank.
  apply (f_equal (@rev N)) in H. by rewrite rev_involutive in H.
Qed.

(** The guard of [searchBooks] fires exactly on blank terms. *)
Lemma guard_blank (s : str) : negb (truthy (trim s)) = blank s.
Proof.
  destruct (blank s) eqn:Hb.
  - by rewrite (trim_blank s Hb).
  - destruct (trim s) eqn:Ht; [|done].
    apply trim_nil_blank in Ht. congruence.
Qed.

(** [encodeURIComponent] throws exactly on ill-formed strings. *)
Lemma encodeURIComponent_wellFormed (s : str) :
  is_Some (encodeURIComponent s) ↔ wellFormed s = true.
Proof.
  assert (H : ∀ n (s : str), length s < n →
            (is_Some (encodeURIComponent s) ↔ wellFormed s = true)).
  { clear s. induction n as [|n IH]; intros s Hlen; [lia|].
    destruct s as [|c rest]; simpl in *; [by split; eauto|].
    assert (Hrest : is_Some (encodeURIComponent rest) ↔ wellFormed rest = true)
      by (apply IH; lia).
    destruct (uriUnescaped c) eqn:Hu.
    - assert (isTrailSurrogate c = false ∧ isLeadSurrogate c = false) as [-> ->].
      { unfold uriUnescaped, isTrailSurrogate, isLeadSurrogate, in_range in *.
        split; apply not_true_is_false; intros Hs; unbool; lia. }
      rewrite fmap_is_Some. exact Hrest.
    - destruct (isTrailSurrogate c); [split; [intros [? ?]|]; done|].
      destruct (isLeadSurrogate c).
      + destruct rest as [|d rest']; [split; [intros [? ?]|]; done|].
        destruct (isTrailSurrogate d); simpl.
        * rewrite fmap_is_Some. apply IH. simpl in Hlen. lia.
        * split; [intros [? ?]|]; done.
      + rewrite fmap_is_Some. exact Hrest. }
  apply (H (S (length s))). lia.
Qed.

Lemma to_int_not_nil (z : Z) :
  Z.to_int z ≠ Decimal.Pos Decimal.Nil ∧ Z.to_int z ≠ Decimal.Neg Decimal.Nil.
Proof.
  destruct z as [|p|p]; simpl; split; try done;
    intros [= H]; by apply DecimalPos.Unsigned.to_uint_nonnil in H.
Qed.

(** The text [ofZ] prints is a decimal numeral, and the numeral denotes
    the number printed. *)
Lemma ofZ_numeral (z : Z) :
  ∃ digits, ofZ z = lit digits ∧ numeralValue digits = Some z.
Proof.
  exists (NilZero.string_of_int (Z.to_int z)). split; [done|].
  unfold numeralValue.
  destruct (to_int_not_nil z) as [Hpos Hneg].
  rewrite (NilZero.isi _ Hpos Hneg). simpl. by rewrite DecimalZ.of_to.
Qed.

End StringFacts.

(** ** The guard on the search term *)

Lemma step_invokesSearch (w w' : World) (e : Event) :
  invokesSearch e = true → step w e = Some w' → w' = searchBooks w.
Proof.
  destruct e as [| | |k|]; simpl; try discriminate.
  - intros _. destruct (loading (ui w)); congruence.
  - intros Hk%bool_decide_eq_true. unfold handleKeyPress.
    rewrite decide_True by done. congruence.
Qed.

Lemma searchBooks_blank (w : World) :
  blank (searchQuery (ui w)) = true → searchBooks w = toast validationToast w.
Proof. intros H. unfold searchBooks. by rewrite guard_blank, H. Qed.

(** C1: with an empty or white-space-only term, a search invoked by the
    search button or by the Enter key sends no request, raises the
    validation notice and leaves the state as it was: [loading] and
    [hasSearched] keep their values and no call is put in flight. *)
Theorem blank_term_is_refused (w w' : World) (e : Event) :
  blank (searchQuery (ui w)) = true →
  invokesSearch e = true →
  step w e = Some w' →
  requests w' = requests w
  ∧ toasts w' = toasts w ++ [validationToast]
  ∧ ui w' = ui w
  ∧ loading (ui w') = loading (ui w)
  ∧ hasSearched (ui w') = hasSearched (ui w)
  ∧ inflight w' = inflight w
  ∧ console w' = console w.
Proof.
  intros Hb He Hs. rewrite (step_invokesSearch w w' e He Hs).
  rewrite (searchBooks_blank w Hb). by repeat split.
Qed.

(** The Enter key always reaches [searchBooks]; the button does unless it
    is disabled. *)
Lemma enter_invokes (w : World) :
  step w (KeyPress (lit "Enter")) = Some (searchBooks w).
Proof. reflexivity. Qed.

Lemma click_invokes (w : World) :
  loading (ui w) = false → step w ClickSearch = Some (searchBooks w).
Proof. simpl. by intros ->. Qed.

Lemma blank_term_is_refused_witness :
  blank (searchQuery (ui blankWorld)) = true
  ∧ requests (searchBooks blankWorld) = []
  ∧ toasts (searchBooks blankWorld) = [validationToast]
  ∧ loading (ui (searchBooks blankWorld)) = false
  ∧ hasSearched (ui (searchBooks blankWorld)) = false.
Proof.
  split; [reflexivity|].
  destruct (blank_term_is_refused blankWorld (searchBooks blankWorld)
              (KeyPress (lit "Enter")))
    as (Hr & Ht & _ & Hl & Hh & _); [reflexivity..|].
  rewrite Hr, Ht, Hl, Hh. by repeat split.
Defined.

(** ** The request *)

(** C3, as stated, fails: the term [" a"] is sent as [title=%20a], not as
    the encoding [title=a] of its trimmed form. *)
Lemma request_not_trimmed : ¬ requestEncodesTrimmedTerm.
Proof.
  intros H. destruct (H paddedWorld) as (r & Hr & Hreq); [done|].
  vm_compute in Hr. injection Hr as <-.
  vm_compute in Hreq. discriminate Hreq.
Qed.

Example padded_request :
  map req_url (requests (searchBooks paddedWorld))
  = [lit "https://openlibrary.org/search.json?title=%20a&limit=20"].
Proof. reflexivity. Qed.

(** A term with an unpaired surrogate makes [encodeURIComponent] throw:
    nothing is sent and the failure notice is raised. *)
Example unpaired_surrogate_sends_nothing :
  let w := setSearchQuery [0xD83D%N] initialWorld in
  requests (searchBooks w) = [] ∧ toasts (searchBooks w) = [failureToast].
Proof. by split. Qed.

Lemma searchBooks_resume_requests (k : InFlight) (o : FetchOutcome) (w : World) :
  requests (searchBooks_resume k o w) = requests w.
Proof.
  unfold searchBooks_resume.
  destruct o as [e|[] [e|data]]; simpl; try done.
  by destruct (length (docs data) =? 0)%nat.
Qed.

(** C3 (amended): for a term that is not blank and has no unpaired
    surrogate, and for each search type, [searchBooks] sends exactly one
    GET, to the fixed endpoint with the query [field=term&limit=20], where
    the field is the name of the selected type and the term is
    [encodeURIComponent] of the text as entered, not trimmed; the call
    is put in flight, and its continuation sends nothing more. *)
Theorem search_sends_one_request (w : World) :
  trim (searchQuery (ui w)) ≠ [] →
  wellFormed (searchQuery (ui w)) = true →
  ∃ encoded,
    encodeURIComponent (searchQuery (ui w)) = Some encoded
    ∧ requests (searchBooks w)
      = requests w
        ++ [{| req_method := GET;
               req_url := lit "https://openlibrary.org/search.json?"
                          ++ typeName (searchType (ui w)) ++ lit "="
                          ++ encoded ++ lit "&limit=20" |}]
    ∧ (∃ k, inflight (searchBooks w) !! issued w = Some k
            ∧ ∀ o w1, requests (searchBooks_resume k o w1) = requests w1).
Proof.
  intros Ht Hwf.
  apply encodeURIComponent_wellFormed in Hwf as [encoded Henc].
  exists encoded. split; [done|].
  unfold searchBooks. rewrite guard_blank.
  destruct (blank (searchQuery (ui w))) eqn:Hb.
  { by apply trim_blank in Hb. }
  rewrite Henc. simpl. split.
  - unfold searchUrl. by destruct (searchType (ui w)).
  - eexists. split; [apply lookup_insert_eq|].
    intros. apply searchBooks_resume_requests.
Qed.

Lemma search_sends_one_request_witness :
  ∃ encoded,
    encodeURIComponent (lit "Tolkien") = Some encoded
    ∧ requests (searchBooks tolkienWorld)
      = [{| req_method := GET;
            req_url := lit "https://openlibrary.org/search.json?"
                       ++ lit "author" ++ lit "=" ++ encoded
                       ++ lit "&limit=20" |}]
    ∧ (∃ k, inflight (searchBooks tolkienWorld) !! 0 = Some k
            ∧ ∀ o w1, requests (searchBooks_resume k o w1) = requests w1).
Proof.
  apply (search_sends_one_request tolkienWorld); [done | reflexivity].
Defined.

(** ** Settling a call *)

Lemma searchBooks_cases (w : World) :
  searchBooks w = toast validationToast w
  ∨ (hasSearched (ui (searchBooks w)) = true
     ∧ books (ui (searchBooks w)) = books (ui w)).
Proof.
  unfold searchBooks.
  destruct (negb (truthy (trim (searchQuery (ui w))))); [by left|right].
  by destruct (encodeURIComponent (searchQuery (ui w))).
Qed.

Lemma searchBooks_resume_ui (k : InFlight) (o : FetchOutcome) (w : World) :
  hasSearched (ui (searchBooks_resume k o w)) = hasSearched (ui w)
  ∧ loading (ui (searchBooks_resume k o w)) = false
  ∧ inflight (searchBooks_resume k o w) = inflight w.
Proof.
  unfold searchBooks_resume.
  destruct o as [e|[] [e|data]]; simpl; try done.
  by destruct (length (docs data) =? 0)%nat.
Qed.

Lemma step_searchedIfPending (w w' : World) (e : Event) :
  searchedIfPending w → step w e = Some w' → searchedIfPending w'.
Proof.
  intros Hinv Hstep.
  assert (Hsearch : searchedIfPending (searchBooks w)).
  { destruct (searchBooks_cases w) as [->|[Hs _]]; [exact Hinv|].
    intros ? _. exact Hs. }
  destruct e as [v|t| |key|i o]; simpl in Hstep.
  - injection Hstep as <-. exact Hinv.
  - injection Hstep as <-. exact Hinv.
  - destruct (loading (ui w)); [done|]. by injection Hstep as <-.
  - injection Hstep as <-. unfold handleKeyPress. by case_decide.
  - destruct (inflight w !! i) as [k|] eqn:Hk; [|done].
    injection Hstep as <-. intros j Hj.
    destruct (searchBooks_resume_ui k o (settled i w)) as (-> & _ & Hfl).
    rewrite Hfl in Hj. simpl in *. apply (Hinv i). by rewrite Hk.
Qed.

Lemma exec_searchedIfPending (tr : list Event) (w w' : World) :
  searchedIfPending w → exec w tr = Some w' → searchedIfPending w'.
Proof.
  revert w. induction tr as [|e tr IH]; simpl; intros w Hinv Hexec.
  - by injection Hexec as <-.
  - destruct (step w e) as [w1|] eqn:Hstep; [|done].
    eauto using step_searchedIfPending.
Qed.

Lemma reachable_searchedIfPending (w : World) :
  reachable w → searchedIfPending w.
Proof.
  intros [tr Htr]. apply (exec_searchedIfPending tr initialWorld); [|done].
  intros i [k Hk]. simpl in Hk. by rewrite lookup_empty in Hk.
Qed.

Lemma tolkienPending_reachable : reachable tolkienPending.
Proof. exists tolkienTrace. reflexivity. Qed.

(** C4: when a call in flight gets a successful response with N > 0
    records, the whole list replaces the stored one, the grid shows one
    card per record (N cards), and the notice raised is the success notice
    with the total [numFound] reported by the server (a safe integer):
    its text is ["Found "], a decimal numeral that denotes [numFound], and
    [" books matching your search."]; the number of records shown does not
    enter it. *)
Theorem success_stores_all_records
    (w : World) (i : nat) (k : InFlight) (data : SearchResponse) :
  reachable w →
  inflight w !! i = Some k →
  0 < length (docs data) →
  safeInteger (numFound data) = true →
  ∃ w',
    step w (Settle i (ok data)) = Some w'
    ∧ books (ui w') = docs data
    ∧ (∃ cards, view_results (render (ui w')) = Some cards
                ∧ cards = map renderCard (docs data)
                ∧ length cards = length (docs data))
    ∧ view_no_results (render (ui w')) = false
    ∧ toasts w' = toasts w ++ [successToast (numFound data)]
    ∧ toast_title (successToast (numFound data)) = lit "Search successful!"
    ∧ toast_variant (successToast (numFound data)) = Default
    ∧ (∃ digits,
         toast_description (successToast (numFound data))
         = lit "Found " ++ lit digits ++ lit " books matching your search."
         ∧ numeralValue digits = Some (numFound data))
    ∧ console w' = console w.
Proof.
  intros Hreach Hk Hn _.
  pose proof (reachable_searchedIfPending w Hreach i (mk_is_Some _ _ Hk)) as Hs.
  destruct (ofZ_numeral (numFound data)) as (digits & Hdigits & Hvalue).
  eexists. split; [simpl; by rewrite Hk|].
  unfold searchBooks_resume, ok. cbn [searchBooks_await].
  destruct (length (docs data) =? 0)%nat eqn:Hz.
  { apply Nat.eqb_eq in Hz. lia. }
  split; [done|]. split.
  { unfold render; simpl. rewrite Hs.
    apply Nat.ltb_lt in Hn as ->. simpl.
    eexists. repeat split. by rewrite length_map. }
  split.
  { unfold render; simpl. by rewrite Hz, andb_false_r. }
  repeat split.
  exists digits. split; [|done].
  unfold successToast; simpl. by rewrite Hdigits.
Qed.

(** C5: when a call in flight gets a successful response with no record,
    the stored list becomes empty, the page shows the "No books found"
    panel, and the notice raised is the plain "No books found" notice that
    suggests other terms; the failure notice is not raised and nothing is
    logged. *)
Theorem empty_response_is_not_a_failure
    (w : World) (i : nat) (k : InFlight) (data : SearchResponse) :
  reachable w →
  inflight w !! i = Some k →
  docs data = [] →
  ∃ w',
    step w (Settle i (ok data)) = Some w'
    ∧ books (ui w') = []
    ∧ view_no_results (render (ui w')) = true
    ∧ view_results (render (ui w')) = None
    ∧ toasts w' = toasts w ++ [noBooksToast (flight_type k)]
    ∧ toast_description (noBooksToast (flight_type k))
      = lit "Try searching with different " ++ typeName (flight_type k)
        ++ lit " terms."
    ∧ toast_variant (noBooksToast (flight_type k)) = Default
    ∧ noBooksToast (flight_type k) ≠ failureToast
    ∧ console w' = console w.
Proof.
  intros Hreach Hk Hd.
  pose proof (reachable_searchedIfPending w Hreach i (mk_is_Some _ _ Hk)) as Hs.
  eexists. split; [simpl; by rewrite Hk|].
  unfold searchBooks_resume, ok. cbn [searchBooks_await]. rewrite Hd. simpl.
  unfold render; simpl. rewrite Hs. by repeat split.
Qed.

(** C6, as stated, fails: the component has no Failed state.  A first
    search answered with status 500 leaves exactly the component state
    that an answer without records leaves; only the notice differs. *)
Lemma failure_has_no_state_of_its_own : ¬ failureEntersErrorState.
Proof.
  intros H.
  apply (H tolkienPending
           (default tolkienPending (step tolkienPending (Settle 0 serverError)))
           (default tolkienPending (step tolkienPending (Settle 0 (ok noDocs))))
           0 (inl {| err_name := lit "SyntaxError";
                     err_message := lit "Unexpected token" |}) noDocs).
  - exact tolkienPending_reachable.
  - reflexivity.
  - reflexivity.
  - reflexivity.
  - reflexivity.
Qed.

(** C6 (amended): when the call of a search in flight fails (the fetch is
    rejected, the response is not [ok] whatever its body, or the body of an
    [ok] response cannot be read), the failure notice is raised, the same
    fixed text whatever the error; the error itself (the rejection, the
    [Error] of the status test, or the parse error) goes to the console
    only; no request is sent and no call is put in flight again.  There is
    no Failed state: the component state is the one before the response
    with the loading flag cleared, so the page shows the stored records as
    before, or the "No books found" panel when none are stored. *)
Theorem failure_raises_generic_notice
    (w : World) (i : nat) (k : InFlight) (o : FetchOutcome) (err : JsError) :
  inflight w !! i = Some k →
  o = Rejected err
  ∨ ((∃ body, o = Responded false body) ∧ err = statusError)
  ∨ o = Responded true (inl err) →
  ∃ w',
    step w (Settle i o) = Some w'
    ∧ toasts w' = toasts w ++ [failureToast]
    ∧ console w' = console w ++ [(lit "Search error:", err)]
    ∧ requests w' = requests w
    ∧ inflight w' = delete i (inflight w)
    ∧ issued w' = issued w
    ∧ ui w' = ui (setLoading false w)
    ∧ books (ui w') = books (ui w)
    ∧ loading (ui w') = false
    ∧ (reachable w →
       view_skeletons (render (ui w')) = None
       ∧ view_welcome (render (ui w')) = false
       ∧ view_no_results (render (ui w')) = (length (books (ui w)) =? 0)%nat
       ∧ view_results (render (ui w'))
         = if (0 <? length (books (ui w)))%nat
           then Some (map renderCard (books (ui w))) else None).
Proof.
  intros Hk Ho.
  assert (Hw' : step w (Settle i o)
                = Some (searchBooks_finally
                          (searchBooks_catch err (settled i w)))).
  { simpl. rewrite Hk. f_equal. unfold searchBooks_resume.
    by destruct Ho as [->|[[[body ->] ->]| ->]]. }
  eexists. split; [exact Hw'|].
  do 8 (split; [reflexivity|]).
  intros Hreach.
  pose proof (reachable_searchedIfPending w Hreach i (mk_is_Some _ _ Hk)) as Hs.
  unfold render; simpl. rewrite Hs. by repeat split.
Qed.

Lemma success_stores_all_records_witness :
  ∃ w',
    step tolkienPending (Settle 0 (ok manyFound)) = Some w'
    ∧ length (books (ui w')) = 5
    ∧ toasts w'
      = [{| toast_title := lit "Search successful!";
            toast_description := lit "Found 1234 books matching your search.";
            toast_variant := Default |}].
Proof.
  destruct (success_stores_all_records tolkienPending 0
              {| flight_type := Author;
                 flight_url := searchUrl Author (lit "Tolkien") |} manyFound)
    as (w' & Hstep & Hbooks & _ & _ & Htoasts & _).
  - exact tolkienPending_reachable.
  - reflexivity.
  - simpl. lia.
  - reflexivity.
  - exists w'. rewrite Hbooks, Htoasts. by repeat split.
Defined.

(** The notice cites the server's total, not the number of cards. *)
Example notice_cites_numFound :
  let data := {| docs := [book "/works/1" None None]; numFound := 1234 |} in
  (λ w, (length (books (ui w)), toasts w))
    <$> step tolkienPending (Settle 0 (ok data))
  = Some (1, [{| toast_title := lit "Search successful!";
                 toast_description :=
                   lit "Found 1234 books matching your search.";
                 toast_variant := Default |}]).
Proof. reflexivity. Qed.

Lemma empty_response_is_not_a_failure_witness :
  ∃ w',
    step tolkienPending (Settle 0 (ok noDocs)) = Some w'
    ∧ books (ui w') = []
    ∧ view_no_results (render (ui w')) = true
    ∧ view_results (render (ui w')) = None
    ∧ toasts w' = [noBooksToast Author]
    ∧ toast_description (noBooksToast Author)
      = lit "Try searching with different " ++ typeName Author
        ++ lit " terms."
    ∧ toast_variant (noBooksToast Author) = Default
    ∧ noBooksToast Author ≠ failureToast
    ∧ console w' = [].
Proof.
  apply (empty_response_is_not_a_failure tolkienPending 0
           {| flight_type := Author;
              flight_url := searchUrl Author (lit "Tolkien") |} noDocs).
  - exact tolkienPending_reachable.
  - reflexivity.
  - reflexivity.
Defined.

Lemma failure_raises_generic_notice_witness :
  ∃ w',
    step tolkienPending (Settle 0 serverError) = Some w'
    ∧ toasts w' = [failureToast]
    ∧ console w' = [(lit "Search error:", statusError)]
    ∧ requests w' = requests tolkienPending
    ∧ size (inflight w') = 0
    ∧ loading (ui w') = false
    ∧ view_no_results (render (ui w')) = true.
Proof.
  destruct (failure_raises_generic_notice tolkienPending 0
              {| flight_type := Author;
                 flight_url := searchUrl Author (lit "Tolkien") |}
              serverError statusError)
    as (w' & Hstep & Htoasts & Hconsole & Hreq & Hfl & _ & _ & _ & Hl & Hview).
  - reflexivity.
  - right. left. split; [eexists|]; reflexivity.
  - destruct (Hview tolkienPending_reachable) as (_ & _ & Hnone & _).
    exists w'. rewrite Htoasts, Hconsole, Hreq, Hfl, Hl, Hnone.
    by repeat split.
Defined.

(** ** Which response the stored records come from *)

Lemma lastApplied_snoc (tr : list Event) (e : Event) (start : list Book) :
  lastApplied (tr ++ [e]) start = default (lastApplied tr start) (applied e).
Proof. revert start. induction tr as [|e' tr IH]; simpl; auto. Qed.

Lemma searchBooks_resume_books (k : InFlight) (o : FetchOutcome) (w : World) :
  books (ui (searchBooks_resume k o w))
  = match o with
    | Responded true (inr data) => docs data
    | _ => books (ui w)
    end.
Proof.
  unfold searchBooks_resume.
  destruct o as [e|[] [e|data]]; simpl; try done.
  by destruct (length (docs data) =? 0)%nat.
Qed.

Lemma step_books (w w' : World) (e : Event) :
  step w e = Some w' → books (ui w') = default (books (ui w)) (applied e).
Proof.
  intros Hstep.
  assert (Hsearch : books (ui (searchBooks w)) = books (ui w)).
  { by destruct (searchBooks_cases w) as [->|[_ ?]]. }
  destruct e as [v|t| |key|i o]; simpl in Hstep.
  - by injection Hstep as <-.
  - by injection Hstep as <-.
  - destruct (loading (ui w)); [done|]. by injection Hstep as <-.
  - injection Hstep as <-. unfold handleKeyPress. by case_decide.
  - destruct (inflight w !! i) as [k|]; [|done]. injection Hstep as <-.
    rewrite searchBooks_resume_books. by destruct o as [?|[] [?|?]].
Qed.

Lemma exec_books (tr : list Event) (w w' : World) :
  exec w tr = Some w' → books (ui w') = lastApplied tr (books (ui w)).
Proof.
  revert w. induction tr as [|e tr IH]; simpl; intros w Hexec.
  - by injection Hexec as <-.
  - destruct (step w e) as [w1|] eqn:Hstep; [|done].
    rewrite (IH w1 Hexec). by rewrite (step_books w w1 e Hstep).
Qed.

(** C7: the stored records change only when a search completes
    successfully.  After any run they are the records of the last
    successful completion (none at first); starting a search keeps them,
    and so does a search that fails; whenever the grid is shown, its cards
    are those of the last successful completion. *)
Theorem books_follow_last_success
    (tr : list Event) (w w' : World) (e : Event) :
  exec initialWorld tr = Some w →
  step w e = Some w' →
  books (ui w) = lastApplied tr []
  ∧ books (ui w') = default (books (ui w)) (applied e)
  ∧ (invokesSearch e = true → books (ui w') = books (ui w))
  ∧ (∀ i o err, e = Settle i o → thrown o = Some err →
       books (ui w') = books (ui w))
  ∧ (∀ cards, view_results (render (ui w')) = Some cards →
       cards = map renderCard (lastApplied (tr ++ [e]) [])).
Proof.
  intros Hexec Hstep.
  pose proof (exec_books tr initialWorld w Hexec) as Hw.
  pose proof (step_books w w' e Hstep) as Hw'.
  simpl in Hw. repeat split; try done.
  - intros He. rewrite Hw'. by destruct e.
  - intros i o err -> Ho. rewrite Hw'.
    by destruct o as [?|[] [?|?]].
  - intros cards. rewrite lastApplied_snoc, <- Hw, <- Hw'.
    unfold render; simpl.
    destruct (negb (loading (ui w')) && hasSearched (ui w')
              && (0 <? length (books (ui w')))%nat); congruence.
Qed.

Lemma books_follow_last_success_witness :
  books (ui failingWorld) = docs fiveDocs
  ∧ books (ui (default failingWorld
                 (step failingWorld (Settle 1 (Rejected networkError)))))
    = docs fiveDocs.
Proof.
  destruct (books_follow_last_success failingTrace failingWorld
              (default failingWorld
                 (step failingWorld (Settle 1 (Rejected networkError))))
              (Settle 1 (Rejected networkError)))
    as (H1 & H2 & _); [vm_compute; reflexivity..|].
  rewrite H2, H1. by split.
Defined.

(** ** Overlapping searches *)

(** C2, as stated, fails: the component keeps no token of the latest
    search, so the late response of the older search replaces the records
    of the newer one. *)
Lemma stale_response_overwrites : ¬ staleResponseIgnored.
Proof.
  intros H.
  specialize (H overlapWorld
                (default overlapWorld (step overlapWorld (Settle 1 (ok docsB))))
                (default overlapWorld
                   (exec overlapWorld [Settle 1 (ok docsB); Settle 0 (ok docsA)]))
                0 1 (ok docsA) (ok docsB)).
  assert (Hbooks : docs docsA = docs docsB); [|discriminate Hbooks].
  apply H.
  - exists overlapTrace. reflexivity.
  - lia.
  - eexists. reflexivity.
  - eexists. reflexivity.
  - reflexivity.
  - reflexivity.
Qed.

Lemma step_settle_ok (w : World) (i : nat) (k : InFlight) (data : SearchResponse) :
  inflight w !! i = Some k →
  ∃ w', step w (Settle i (ok data)) = Some w'
        ∧ books (ui w') = docs data
        ∧ inflight w' = delete i (inflight w).
Proof.
  intros Hk. eexists. split; [simpl; by rewrite Hk|].
  rewrite searchBooks_resume_books.
  by destruct (searchBooks_resume_ui k (ok data) (settled i w)) as (_ & _ & ->).
Qed.

(** C2 (amended): responses are applied in the order in which they
    arrive.  For two searches in flight at once, whichever was started
    first, the records stored after both have completed successfully are
    those of the one that completed last: a late response of the older
    search does replace the records of the newer one. *)
Theorem last_completion_wins
    (w : World) (i j : nat) (ki kj : InFlight) (di dj : SearchResponse) :
  i ≠ j →
  inflight w !! i = Some ki →
  inflight w !! j = Some kj →
  (∃ w', exec w [Settle i (ok di); Settle j (ok dj)] = Some w'
         ∧ books (ui w') = docs dj)
  ∧ (∃ w', exec w [Settle j (ok dj); Settle i (ok di)] = Some w'
           ∧ books (ui w') = docs di).
Proof.
  intros Hne Hi Hj. split.
  - destruct (step_settle_ok w i ki di Hi) as (w1 & Hs1 & _ & Hfl).
    destruct (step_settle_ok w1 j kj dj) as (w2 & Hs2 & Hb & _).
    { by rewrite Hfl, lookup_delete_ne. }
    exists w2. cbn [exec]. by rewrite Hs1, Hs2.
  - destruct (step_settle_ok w j kj dj Hj) as (w1 & Hs1 & _ & Hfl).
    destruct (step_settle_ok w1 i ki di) as (w2 & Hs2 & Hb & _).
    { by rewrite Hfl, lookup_delete_ne. }
    exists w2. cbn [exec]. by rewrite Hs1, Hs2.
Qed.

Lemma last_completion_wins_witness :
  (∃ w', exec overlapWorld [Settle 0 (ok docsA); Settle 1 (ok docsB)] = Some w'
         ∧ books (ui w') = docs docsB)
  ∧ (∃ w', exec overlapWorld [Settle 1 (ok docsB); Settle 0 (ok docsA)] = Some w'
           ∧ books (ui w') = docs docsA).
Proof.
  apply (last_completion_wins overlapWorld 0 1
           {| flight_type := Title; flight_url := searchUrl Title (lit "a") |}
           {| flight_type := Title; flight_url := searchUrl Title (lit "b") |}
           docsA docsB).
  - lia.
  - reflexivity.
  - reflexivity.
Defined.

(** ** Cards *)

(** C8, as stated, fails: a cover id that is present and equal to 0 gets
    no image. *)
Lemma present_cover_without_image : ¬ coverShownWheneverPresent.
Proof.
  intros H.
  destruct (H (book "/works/1" (Some 0%Z) None) 0%Z) as [size Himg];
    [reflexivity|].
  discriminate Himg.
Qed.

(** C8 (amended): a record whose cover id is present and not 0 (a safe
    integer) gets an image whose URL is the fixed host followed by
    [{coverId}-M.jpg], the id as a decimal numeral that denotes it and M
    being one of the size tags S, M, L, and its placeholder is hidden; a
    record without cover id gets the visible placeholder and no image, so
    no image URL is built or requested. *)
Theorem cover_url_from_template (b : Book) :
  (∀ coverId : Z,
     cover_i b = Some coverId → coverId ≠ 0%Z →
     safeInteger coverId = true →
     card_img (renderCard b)
     = Some (lit "https://covers.openlibrary.org/b/id/" ++ ofZ coverId
             ++ lit "-" ++ sizeTag SizeM ++ lit ".jpg")
     ∧ (∃ digits,
          card_img (renderCard b)
          = Some (lit "https://covers.openlibrary.org/b/id/" ++ lit digits
                  ++ lit "-M.jpg")
          ∧ numeralValue digits = Some coverId)
     ∧ card_img (renderCard b) = Some (getCoverUrl coverId SizeM)
     ∧ card_placeholder_hidden (renderCard b) = true
     ∧ imageRequests (renderCard b) = [getCoverUrl coverId SizeM])
  ∧ (cover_i b = None →
     card_img (renderCard b) = None
     ∧ card_placeholder_hidden (renderCard b) = false
     ∧ imageRequests (renderCard b) = []).
Proof.
  split.
  - intros coverId Hc Hnz _.
    destruct (ofZ_numeral coverId) as (digits & Hdigits & Hvalue).
    unfold imageRequests, renderCard, renderCover; simpl. rewrite Hc. simpl.
    apply Z.eqb_neq in Hnz as ->.
    split; [done|]. split; [|done].
    exists digits. split; [|done].
    unfold getCoverUrl. by rewrite Hdigits.
  - intros Hc.
    unfold imageRequests, renderCard, renderCover; simpl. by rewrite Hc.
Qed.

Lemma cover_url_from_template_witness :
  card_img (renderCard (book "/works/1" (Some 12345%Z) None))
  = Some (lit "https://covers.openlibrary.org/b/id/12345-M.jpg")
  ∧ imageRequests (renderCard (book "/works/2" None None)) = [].
Proof.
  split.
  - destruct (cover_url_from_template (book "/works/1" (Some 12345%Z) None))
      as [Hpresent _].
    destruct (Hpresent 12345%Z) as (Himg & _);
      [reflexivity | lia | reflexivity |].
    rewrite Himg. reflexivity.
  - destruct (cover_url_from_template (book "/works/2" None None))
      as [_ Habsent].
    destruct Habsent as (_ & _ & Hreq); [reflexivity|].
    exact Hreq.
Defined.

(** C10: a record whose cover id is present and equal to 0 is rendered as
    one without cover: visible placeholder, no image, no image request;
    presence is tested by the truthiness of the number. *)
Theorem zero_cover_is_no_cover (b : Book) :
  cover_i b = Some 0%Z →
  truthyNum (cover_i b) = false
  ∧ card_img (renderCard b) = None
  ∧ card_placeholder_hidden (renderCard b) = false
  ∧ imageRequests (renderCard b) = [].
Proof.
  intros Hc.
  unfold imageRequests, renderCard, renderCover; simpl. by rewrite Hc.
Qed.

Lemma zero_cover_is_no_cover_witness :
  card_img (renderCard (book "/works/1" (Some 0%Z) None)) = None
  ∧ card_placeholder_hidden (renderCard (book "/works/1" (Some 0%Z) None)) = false
  ∧ imageRequests (renderCard (book "/works/1" (Some 0%Z) None)) = [].
Proof.
  apply (zero_cover_is_no_cover (book "/works/1" (Some 0%Z) None)).
  reflexivity.
Defined.

Lemma filter_secondary (v : BadgeVariant) (l : list str) :
  map badge_text (filter (λ b, badge_variant b = v) (map secondaryBadge l))
  = if decide (Secondary = v) then l else [].
Proof.
  induction l as [|s l IH]; simpl; [by case_decide|].
  rewrite filter_cons. simpl.
  destruct (decide (Secondary = v)); simpl; by rewrite ?IH.
Qed.

(** C9: a record with k subjects shows min(k, 3) subject labels, the first
    three subjects at most; when k > 3 it also shows exactly one remainder
    label, ["+"] followed by k - 3, and none otherwise. *)
Theorem subject_labels (b : Book) (subs : list str) :
  subject b = Some subs →
  subjectLabels (renderCard b) = take 3 subs
  ∧ length (subjectLabels (renderCard b)) = min (length subs) 3
  ∧ (3 < length subs →
       remainderLabels (renderCard b) = [lit "+" ++ ofNat (length subs - 3)])
  ∧ (length subs ≤ 3 → remainderLabels (renderCard b) = []).
Proof.
  intros Hs.
  assert (Hlabels : subjectLabels (renderCard b) = take 3 subs
          ∧ remainderLabels (renderCard b)
            = if (3 <? length subs)%nat
              then [lit "+" ++ ofNat (length subs - 3)] else []).
  { unfold subjectLabels, remainderLabels, badgesOf, renderCard, renderSubjects.
    simpl. rewrite Hs.
    destruct subs as [|s subs]; [done|].
    change (0 <? length (s :: subs))%nat with true. cbv iota.
    fold secondaryBadge.
    rewrite !filter_app, !map_app, !filter_secondary.
    rewrite decide_True, decide_False by done.
    destruct (3 <? length (s :: subs))%nat; simpl.
    - by rewrite app_nil_r.
    - by rewrite app_nil_r. }
  destruct Hlabels as [Hl Hr]. rewrite Hl, Hr.
  repeat split.
  - rewrite length_take. lia.
  - intros H. by apply Nat.ltb_lt in H as ->.
  - intros H. by apply Nat.ltb_ge in H as ->.
Qed.

Lemma subject_labels_witness :
  subjectLabels (renderCard (book "/works/1" None (Some fiveSubjects)))
  = [lit "Fantasy"; lit "Fiction"; lit "Elves"]
  ∧ remainderLabels (renderCard (book "/works/1" None (Some fiveSubjects)))
    = [lit "+2"].
Proof.
  destruct (subject_labels (book "/works/1" None (Some fiveSubjects))
              fiveSubjects) as (Hl & _ & Hr & _); [reflexivity|].
  rewrite Hl, Hr by (simpl; lia). by split.
Defined.

(** ** The encoded term is URL-safe *)

Section UrlSafe.

Local Open Scope N_scope.

Lemma log2_byte (x : N) : x < 256 → N.log2 x < 8.
Proof.
  intros H. destruct (decide (x = 0)) as [->|Hx]; [done|].
  apply N.log2_lt_pow2; [lia | exact H].
Qed.

Lemma lor_byte (a b : N) : a < 256 → b < 256 → N.lor a b < 256.
Proof.
  intros Ha Hb. destruct (decide (N.lor a b = 0)) as [->|Hx]; [done|].
  apply (N.log2_lt_pow2 _ 8); [lia|].
  rewrite N.log2_lor. apply N.max_lub_lt; by apply log2_byte.
Qed.

Lemma shiftr_lt (a n q : N) : a < 2 ^ n * q → N.shiftr a n < q.
Proof.
  intros H. rewrite N.shiftr_div_pow2.
  apply N.Div0.div_lt_upper_bound. exact H.
Qed.

Lemma land_lt (a m q : N) : m < q → N.land a m < q.
Proof. pose proof (N.land_le_r a m). lia. Qed.

Lemma hexDigit_unescaped (d : N) : d < 16 → uriUnescaped (hexDigit d) = true.
Proof.
  intros H. unfold hexDigit, uriUnescaped, in_range.
  destruct (d <? 10) eqn:Hd; unbool.
  - assert ((0x30 <=? 0x30 + d) = true ∧ (0x30 + d <=? 0x39) = true) as [-> ->]
      by (split; apply N.leb_le; lia).
    by rewrite !orb_true_r.
  - assert ((0x41 <=? 0x41 + (d - 10)) = true
            ∧ (0x41 + (d - 10) <=? 0x5A) = true) as [-> ->]
      by (split; apply N.leb_le; lia).
    done.
Qed.

Lemma pct_urlSafe (b : N) : b < 256 → forallb urlSafe (pct b) = true.
Proof.
  intros H. unfold pct, urlSafe. simpl.
  rewrite !hexDigit_unescaped; [done | by apply land_lt | by apply shiftr_lt].
Qed.

Lemma utf8_bytes (cp : N) : cp < 0x200000 → Forall (λ b, b < 256) (utf8 cp).
Proof.
  intros H. unfold utf8.
  repeat case_match; unbool;
    repeat (apply Forall_cons; split);
    try apply Forall_nil;
    try lia;
    apply lor_byte; try done;
    first [ by apply land_lt | apply shiftr_lt; simpl; lia ].
Qed.

Lemma escape_urlSafe (cp : N) :
  cp < 0x200000 → forallb urlSafe (escape cp) = true.
Proof.
  intros H. unfold escape. pose proof (utf8_bytes cp H) as Hbytes.
  induction Hbytes as [|b bs Hb _ IH]; [done|].
  cbn [map concat]. by rewrite forallb_app, IH, pct_urlSafe.
Qed.

(** Whatever [encodeURIComponent] returns for a string of 16-bit code
    units holds only unescaped characters and escapes. *)
Lemma encodeURIComponent_urlSafe (s encoded : str) :
  Forall (λ c, c < 0x10000) s →
  encodeURIComponent s = Some encoded →
  forallb urlSafe encoded = true.
Proof.
  assert (H : ∀ n (s encoded : str), (length s < n)%nat →
            Forall (λ c, c < 0x10000) s →
            encodeURIComponent s = Some encoded →
            forallb urlSafe encoded = true).
  { clear s encoded. induction n as [|n IH]; intros s encoded Hlen Hs; [lia|].
    destruct s as [|c rest]; simpl in *.
    { by intros [= <-]. }
    apply Forall_cons in Hs as [Hc Hrest].
    assert (IHrest : ∀ e, encodeURIComponent rest = Some e →
                          forallb urlSafe e = true).
    { intros e. apply IH; [lia | done]. }
    destruct (uriUnescaped c) eqn:Hu.
    - destruct (encodeURIComponent rest) as [e|]; [|done].
      intros [= <-]. simpl. unfold urlSafe at 1. rewrite Hu. simpl. eauto.
    - destruct (isTrailSurrogate c); [done|].
      destruct (isLeadSurrogate c) eqn:Hlead.
      + destruct rest as [|d rest']; [done|].
        destruct (isTrailSurrogate d) eqn:Htrail; [|done].
        apply Forall_cons in Hrest as [Hd Hrest'].
        destruct (encodeURIComponent rest') as [e|] eqn:He; [|done].
        intros [= <-]. rewrite forallb_app.
        rewrite escape_urlSafe.
        * simpl. apply (IH rest'); [simpl in Hlen; lia | done | done].
        * unfold isLeadSurrogate, isTrailSurrogate, in_range in *.
          unfold pairCodePoint. unbool. lia.
      + destruct (encodeURIComponent rest) as [e|]; [|done].
        intros [= <-]. rewrite forallb_app.
        rewrite escape_urlSafe by lia. simpl. eauto. }
  apply (H (S (length s))). lia.
Qed.

End UrlSafe.


(** ** Runs of the component *)

(** The three ways a call of [searchBooks] can go. *)
Lemma searchBooks_spec (w : World) :
  (blank (searchQuery (ui w)) = true ∧ searchBooks w = toast validationToast w)
  ∨ (blank (searchQuery (ui w)) = false
     ∧ ∃ encoded,
         encodeURIComponent (searchQuery (ui w)) = Some encoded
         ∧ searchBooks w
           = fetch (searchUrl (searchType (ui w)) encoded)
                   {| flight_type := searchType (ui w);
                      flight_url := searchUrl (searchType (ui w)) encoded |}
                   (setHasSearched true (setLoading true w)))
  ∨ (blank (searchQuery (ui w)) = false
     ∧ encodeURIComponent (searchQuery (ui w)) = None
     ∧ searchBooks w
       = searchBooks_finally
           (searchBooks_catch uriError
              (setHasSearched true (setLoading true w)))).
Proof.
  unfold searchBooks. rewrite guard_blank.
  destruct (blank (searchQuery (ui w))); [by left|right].
  destruct (encodeURIComponent (searchQuery (ui w))) as [encoded|];
    [left; eauto | by right].
Qed.

(** What a continuation leaves alone and what it adds. *)
Lemma searchBooks_resume_logs (k : InFlight) (o : FetchOutcome) (w : World) :
  issued (searchBooks_resume k o w) = issued w
  ∧ (∃ t, toasts (searchBooks_resume k o w) = toasts w ++ [t])
  ∧ (console (searchBooks_resume k o w) = console w
     ∨ ∃ e, console (searchBooks_resume k o w)
            = console w ++ [(lit "Search error:", e)]).
Proof.
  unfold searchBooks_resume.
  destruct (searchBooks_await o) as [e|data]; simpl.
  - repeat split; eauto.
  - destruct (length (docs data) =? 0)%nat; simpl; repeat split; eauto.
Qed.

(** An event that happens is an edit, a search invocation, or the
    settling of a call in flight. *)
Lemma step_inv (w w' : World) (e : Event) :
  step w e = Some w' →
  (editing e = true
   ∧ ((∃ v, w' = setSearchQuery v w) ∨ (∃ t, w' = setSearchType t w) ∨ w' = w))
  ∨ (invokesSearch e = true ∧ w' = searchBooks w)
  ∨ (∃ i o k, e = Settle i o ∧ inflight w !! i = Some k
              ∧ w' = searchBooks_resume k o (settled i w)).
Proof.
  destruct e as [v|t| |key|i o]; simpl; intros Hstep.
  - injection Hstep as <-. left. split; [done|]. left. eauto.
  - injection Hstep as <-. left. split; [done|]. right. left. eauto.
  - destruct (loading (ui w)); [done|]. injection Hstep as <-. right. by left.
  - injection Hstep as <-. unfold handleKeyPress. case_decide as Hk.
    + right. left. by rewrite bool_decide_eq_true_2.
    + left. rewrite bool_decide_eq_false_2 by done. split; [done|]. by right; right.
  - destruct (inflight w !! i) as [k|] eqn:Hk; [|done]. injection Hstep as <-.
    right. right. eauto 6.
Qed.

(** A property kept by every event is kept by every run. *)
Lemma exec_invariant (P : World → Prop) :
  (∀ w w' e, P w → step w e = Some w' → P w') →
  ∀ tr w w', P w → exec w tr = Some w' → P w'.
Proof.
  intros Hstep tr. induction tr as [|e tr IH]; simpl; intros w w' HP Hexec.
  - by injection Hexec as <-.
  - destruct (step w e) as [w1|] eqn:Hs; [|done]. eauto.
Qed.

Lemma reachable_invariant (P : World → Prop) :
  P initialWorld →
  (∀ w w' e, P w → step w e = Some w' → P w') →
  ∀ w, reachable w → P w.
Proof.
  intros H0 Hstep w [tr Htr].
  exact (exec_invariant P Hstep tr initialWorld w H0 Htr).
Qed.

(** *** Editing *)

Lemma step_editing (w : World) (e : Event) :
  editing e = true →
  ∃ w', step w e = Some w'
        ∧ requests w' = requests w ∧ toasts w' = toasts w
        ∧ console w' = console w ∧ inflight w' = inflight w
        ∧ books (ui w') = books (ui w) ∧ loading (ui w') = loading (ui w)
        ∧ hasSearched (ui w') = hasSearched (ui w).
Proof.
  destruct e as [v|t| |key|i o]; simpl; try discriminate; intros He.
  - eexists. by repeat split.
  - eexists. by repeat split.
  - apply negb_true_iff, bool_decide_eq_false in He.
    exists w. unfold handleKeyPress. rewrite decide_False by done.
    by repeat split.
Qed.

(** X1: typing in the input, choosing a search type and pressing keys other
    than Enter never search: after any such run no request was sent, no
    notice raised, nothing logged, no call put in flight, and the stored
    records and the two flags are what they were. *)
Theorem editing_never_searches (tr : list Event) (w : World) :
  forallb editing tr = true →
  ∃ w', exec w tr = Some w'
        ∧ requests w' = requests w ∧ toasts w' = toasts w
        ∧ console w' = console w ∧ inflight w' = inflight w
        ∧ books (ui w') = books (ui w) ∧ loading (ui w') = loading (ui w)
        ∧ hasSearched (ui w') = hasSearched (ui w).
Proof.
  revert w. induction tr as [|e tr IH]; simpl; intros w Htr.
  - exists w. by repeat split.
  - apply andb_prop in Htr as [He Htr].
    destruct (step_editing w e He)
      as (w1 & -> & Hr & Ht & Hc & Hf & Hb & Hl & Hh).
    destruct (IH w1 Htr) as (w' & Hexec & Hr' & Ht' & Hc' & Hf' & Hb' & Hl' & Hh').
    exists w'. split; [done|]. repeat split; congruence.
Qed.

Lemma editing_never_searches_witness :
  ∃ w', exec tolkienPending
          [Change (lit "Hobbit"); KeyPress (lit "Tab"); SelectType Title]
        = Some w'
        ∧ requests w' = requests tolkienPending
        ∧ toasts w' = toasts tolkienPending
        ∧ console w' = console tolkienPending
        ∧ inflight w' = inflight tolkienPending
        ∧ books (ui w') = books (ui tolkienPending)
        ∧ loading (ui w') = loading (ui tolkienPending)
        ∧ hasSearched (ui w') = hasSearched (ui tolkienPending).
Proof.
  apply (editing_never_searches
           [Change (lit "Hobbit"); KeyPress (lit "Tab"); SelectType Title]
           tolkienPending).
  reflexivity.
Defined.

(** *** Starting a search *)

Lemma whiteSpace_not_surrogate (c : N) :
  isWhiteSpace c = true → isTrailSurrogate c = false ∧ isLeadSurrogate c = false.
Proof.
  unfold isWhiteSpace, isTrailSurrogate, isLeadSurrogate, in_range. intros H.
  split; apply not_true_is_false; intros Hs; unbool; lia.
Qed.

Lemma blank_wellFormed (s : str) : blank s = true → wellFormed s = true.
Proof.
  induction s as [|c s IH]; simpl; [done|].
  intros [Hc Hs]%andb_prop.
  destruct (whiteSpace_not_surrogate c Hc) as [-> ->]. auto.
Qed.

Lemma unescaped_not_whiteSpace (c : N) :
  uriUnescaped c = true → isWhiteSpace c = false.
Proof.
  unfold uriUnescaped, isWhiteSpace, in_range. intros H.
  apply not_true_is_false; intros Hs; unbool; lia.
Qed.

Lemma encodeURIComponent_unescaped (s : str) :
  forallb uriUnescaped s = true → encodeURIComponent s = Some s.
Proof.
  induction s as [|c s IH]; simpl; [done|].
  intros [-> Hs]%andb_prop. by rewrite (IH Hs).
Qed.

(** X2: A search with a term that is not blank and has no unpaired surrogate
    enters the loading state at once: both flags are set, the stored
    records are kept, no notice is raised yet; the page shows the grid of 8
    placeholder cards instead of results, and the search button is disabled
    and reads "Searching...". *)
Theorem search_enters_loading (w : World) :
  trim (searchQuery (ui w)) ≠ [] →
  wellFormed (searchQuery (ui w)) = true →
  loading (ui (searchBooks w)) = true
  ∧ hasSearched (ui (searchBooks w)) = true
  ∧ books (ui (searchBooks w)) = books (ui w)
  ∧ searchQuery (ui (searchBooks w)) = searchQuery (ui w)
  ∧ searchType (ui (searchBooks w)) = searchType (ui w)
  ∧ toasts (searchBooks w) = toasts w
  ∧ console (searchBooks w) = console w
  ∧ view_skeletons (render (ui (searchBooks w))) = Some 8
  ∧ view_results (render (ui (searchBooks w))) = None
  ∧ view_no_results (render (ui (searchBooks w))) = false
  ∧ view_welcome (render (ui (searchBooks w))) = false
  ∧ view_button_disabled (render (ui (searchBooks w))) = true
  ∧ view_button_label (render (ui (searchBooks w))) = lit "Searching...".
Proof.
  intros Ht Hwf.
  destruct (searchBooks_spec w) as [[Hb _]|[(_ & enc & _ & ->)|(_ & Hnone & _)]].
  - by apply trim_blank in Hb.
  - by repeat split.
  - apply encodeURIComponent_wellFormed in Hwf as [? ?]. congruence.
Qed.

Lemma search_enters_loading_witness :
  loading (ui (searchBooks tolkienWorld)) = true
  ∧ view_skeletons (render (ui (searchBooks tolkienWorld))) = Some 8
  ∧ view_button_disabled (render (ui (searchBooks tolkienWorld))) = true.
Proof.
  destruct (search_enters_loading tolkienWorld)
    as (Hl & _ & _ & _ & _ & _ & _ & Hs & _ & _ & _ & Hd & _);
    [done | reflexivity |].
  by rewrite Hl, Hs, Hd.
Defined.

(** X3: A term with an unpaired surrogate fails before anything is sent:
    [encodeURIComponent] throws inside [try], so no request goes out and no
    call is put in flight; the failure notice is raised and the error
    logged; [hasSearched] is set and [loading] is cleared again; the stored
    records are kept. *)
Theorem malformed_term_fails_locally (w : World) :
  wellFormed (searchQuery (ui w)) = false →
  requests (searchBooks w) = requests w
  ∧ inflight (searchBooks w) = inflight w
  ∧ toasts (searchBooks w) = toasts w ++ [failureToast]
  ∧ (∃ e, console (searchBooks w) = console w ++ [(lit "Search error:", e)])
  ∧ loading (ui (searchBooks w)) = false
  ∧ hasSearched (ui (searchBooks w)) = true
  ∧ books (ui (searchBooks w)) = books (ui w).
Proof.
  intros Hwf.
  destruct (searchBooks_spec w) as [[Hb _]|[(_ & enc & Henc & _)|(_ & _ & ->)]].
  - apply blank_wellFormed in Hb. congruence.
  - assert (wellFormed (searchQuery (ui w)) = true); [|congruence].
    apply encodeURIComponent_wellFormed. by rewrite Henc.
  - repeat split; eauto.
Qed.

Lemma malformed_term_fails_locally_witness :
  requests (searchBooks malformedWorld) = []
  ∧ toasts (searchBooks malformedWorld) = [failureToast]
  ∧ loading (ui (searchBooks malformedWorld)) = false
  ∧ hasSearched (ui (searchBooks malformedWorld)) = true.
Proof.
  destruct (malformed_term_fails_locally malformedWorld)
    as (Hr & _ & Ht & _ & Hl & Hh & _); [reflexivity|].
  by rewrite Hr, Ht, Hl, Hh.
Defined.

(** X4: A non-empty term made only of letters, digits and the marks
    [- _ . ! ~ * ' ( )] is sent as it is: the URL requested is the endpoint
    followed by [field=term&limit=20]. *)
Theorem plain_term_sent_verbatim (w : World) :
  searchQuery (ui w) ≠ [] →
  forallb uriUnescaped (searchQuery (ui w)) = true →
  requests (searchBooks w)
  = requests w
    ++ [{| req_method := GET;
           req_url := lit "https://openlibrary.org/search.json?"
                      ++ typeName (searchType (ui w)) ++ lit "="
                      ++ searchQuery (ui w) ++ lit "&limit=20" |}].
Proof.
  intros Hne Hplain.
  pose proof (encodeURIComponent_unescaped _ Hplain) as Henc.
  destruct (searchBooks_spec w) as [[Hb _]|[(_ & enc & Henc' & ->)|(_ & Hnone & _)]].
  - destruct (searchQuery (ui w)) as [|c s]; [done|]. simpl in *.
    apply andb_prop in Hplain as [Hc _], Hb as [Hc' _].
    apply unescaped_not_whiteSpace in Hc. congruence.
  - rewrite Henc in Henc'. injection Henc' as <-. simpl.
    unfold searchUrl. by destruct (searchType (ui w)).
  - congruence.
Qed.

Lemma plain_term_sent_verbatim_witness :
  map req_url (requests (searchBooks tolkienWorld))
  = [lit "https://openlibrary.org/search.json?author=Tolkien&limit=20"].
Proof.
  rewrite (plain_term_sent_verbatim tolkienWorld); [reflexivity | done | reflexivity].
Defined.

Lemma urlSafe_not_delimiter (c : N) : urlSafe c = true → queryDelimiter c = false.
Proof.
  unfold urlSafe, uriUnescaped, in_range, queryDelimiter. intros H.
  apply bool_decide_eq_false. rewrite !elem_of_cons, elem_of_nil.
  intros Hin. unbool; lia.
Qed.

(** X5: the term cannot change the shape of the query: whenever [searchBooks]
    sends a request for a term of 16-bit code units, its URL is the
    endpoint, the field of the selected type, [=], the encoded term and
    [&limit=20], and the encoded term holds no space and none of
    [# & + / = ?]. *)
Theorem term_cannot_add_parameters (w : World) (r : Request) :
  Forall (λ c, (c < 0x10000)%N) (searchQuery (ui w)) →
  requests (searchBooks w) = requests w ++ [r] →
  ∃ encoded,
    req_url r = catalogEndpoint ++ typeName (searchType (ui w)) ++ lit "="
                ++ encoded ++ lit "&limit=20"
    ∧ encodeURIComponent (searchQuery (ui w)) = Some encoded
    ∧ forallb (λ c, negb (queryDelimiter c)) encoded = true.
Proof.
  intros Hunits Hreq.
  destruct (searchBooks_spec w) as [[_ Hs]|[(_ & enc & Henc & Hs)|(_ & _ & Hs)]];
    rewrite Hs in Hreq; simpl in Hreq.
  - rewrite <- (app_nil_r (requests w)) in Hreq at 1.
    by apply app_inv_head in Hreq.
  - apply app_inv_head in Hreq. injection Hreq as <-.
    exists enc. simpl. split; [|split; [done|]].
    + unfold searchUrl, catalogEndpoint. by destruct (searchType (ui w)).
    + pose proof (encodeURIComponent_urlSafe _ _ Hunits Henc) as Hsafe.
      apply forallb_forall. intros c Hc.
      rewrite forallb_forall in Hsafe.
      by rewrite urlSafe_not_delimiter by auto.
  - rewrite <- (app_nil_r (requests w)) in Hreq at 1.
    by apply app_inv_head in Hreq.
Qed.

Lemma term_cannot_add_parameters_witness :
  ∃ encoded,
    req_url {| req_method := GET;
               req_url := lit "https://openlibrary.org/search.json?title=%20a&limit=20" |}
    = catalogEndpoint ++ typeName Title ++ lit "=" ++ encoded ++ lit "&limit=20"
    ∧ encodeURIComponent (lit " a") = Some encoded
    ∧ forallb (λ c, negb (queryDelimiter c)) encoded = true.
Proof.
  apply (term_cannot_add_parameters paddedWorld).
  - repeat constructor.
  - reflexivity.
Defined.

(** *** The loading flag and the panels *)

(** X6: whenever a call settles, with whatever outcome, [finally] clears the
    loading flag: the loading grid goes and the search button is enabled
    and can start a search again, also when other calls are still in
    flight; only the settled call leaves the set of calls in flight. *)
Theorem settle_clears_loading (w w' : World) (i : nat) (o : FetchOutcome) :
  step w (Settle i o) = Some w' →
  loading (ui w') = false
  ∧ view_skeletons (render (ui w')) = None
  ∧ view_button_disabled (render (ui w')) = false
  ∧ step w' ClickSearch = Some (searchBooks w')
  ∧ inflight w' !! i = None
  ∧ (∀ j, j ≠ i → inflight w' !! j = inflight w !! j).
Proof.
  simpl. destruct (inflight w !! i) as [k|]; [|done]. intros [= <-].
  destruct (searchBooks_resume_ui k o (settled i w)) as (_ & Hl & Hfl).
  split; [exact Hl|].
  split; [unfold render; cbn [view_skeletons]; by rewrite Hl|].
  split; [unfold render; cbn [view_button_disabled]; exact Hl|].
  split; [cbn [step]; by rewrite Hl|].
  rewrite Hfl. split.
  - apply lookup_delete_eq.
  - intros j Hj. by apply lookup_delete_ne.
Qed.

Lemma settle_clears_loading_witness :
  ∃ w', step overlapWorld (Settle 0 (ok docsA)) = Some w'
        ∧ loading (ui w') = false
        ∧ view_button_disabled (render (ui w')) = false
        ∧ is_Some (inflight w' !! 1).
Proof.
  eexists. split; [reflexivity|].
  destruct (settle_clears_loading overlapWorld _ 0 (ok docsA) eq_refl)
    as (Hl & _ & Hd & _ & _ & Hothers).
  rewrite Hl, Hd, (Hothers 1) by lia. repeat split. by eexists.
Defined.

(** X7: in every reachable state, while the loading flag is set some call is
    in flight: the loading grid is never left on once every call has
    settled. *)
Theorem loading_means_pending (w : World) :
  reachable w →
  loading (ui w) = true →
  ∃ i k, inflight w !! i = Some k.
Proof.
  intros Hreach. revert w Hreach.
  apply (reachable_invariant
           (λ w, loading (ui w) = true → ∃ i k, inflight w !! i = Some k)).
  { done. }
  intros w w' e IH Hstep.
  destruct (step_inv w w' e Hstep)
    as [[_ [[v ->]|[[t ->]| ->]]]|[[_ ->]|(i & o & k & -> & Hk & ->)]];
    try exact IH.
  - destruct (searchBooks_spec w) as [[_ ->]|[(_ & enc & _ & ->)|(_ & _ & ->)]].
    + exact IH.
    + intros _. eexists _, _. simpl. apply lookup_insert_eq.
    + simpl. discriminate.
  - destruct (searchBooks_resume_ui k o (settled i w)) as (_ & -> & _).
    discriminate.
Qed.

Lemma loading_means_pending_witness :
  ∃ i k, inflight tolkienPending !! i = Some k.
Proof.
  apply (loading_means_pending tolkienPending).
  - exists tolkienTrace. reflexivity.
  - reflexivity.
Defined.

(** The converse fails: with two overlapping searches, the first response
    clears the flag while the second call is still in flight. *)
Example pending_without_loading :
  (λ w, (loading (ui w), size (inflight w)))
    <$> exec overlapWorld [Settle 0 (ok docsA)]
  = Some (false, 1).
Proof. reflexivity. Qed.

Lemma reachable_loading_searched (w : World) :
  reachable w → loading (ui w) = true → hasSearched (ui w) = true.
Proof.
  revert w.
  apply (reachable_invariant
           (λ w, loading (ui w) = true → hasSearched (ui w) = true)).
  { done. }
  intros w w' e IH Hstep.
  destruct (step_inv w w' e Hstep)
    as [[_ [[v ->]|[[t ->]| ->]]]|[[_ ->]|(i & o & k & -> & Hk & ->)]];
    try exact IH.
  - by destruct (searchBooks_spec w)
      as [[_ ->]|[(_ & enc & _ & ->)|(_ & _ & ->)]].
  - destruct (searchBooks_resume_ui k o (settled i w)) as (_ & -> & _).
    discriminate.
Qed.

(** X8: in every reachable state the page shows exactly one of its four state
    panels: the loading grid, the results grid, the "No books found"
    panel or the welcome panel. *)
Theorem one_panel_at_a_time (w : World) :
  reachable w → panelsShown (render (ui w)) = 1.
Proof.
  intros Hreach.
  pose proof (reachable_loading_searched w Hreach) as Hls.
  unfold panelsShown, render; simpl.
  destruct (loading (ui w)); simpl.
  - by rewrite Hls.
  - destruct (hasSearched (ui w)); simpl; [|done].
    by destruct (books (ui w)).
Qed.

Lemma one_panel_at_a_time_witness :
  panelsShown (render (ui overlapWorld)) = 1.
Proof.
  apply (one_panel_at_a_time overlapWorld).
  exists overlapTrace. reflexivity.
Defined.

(** X9: in every reachable state, while the welcome panel is shown nothing has
    been sent or stored: no request, no call in flight, no records, the
    loading flag clear, nothing logged, and every notice raised so far is
    the validation notice. *)
Theorem welcome_means_nothing_sent (w : World) :
  reachable w →
  view_welcome (render (ui w)) = true →
  requests w = [] ∧ inflight w = ∅ ∧ books (ui w) = []
  ∧ loading (ui w) = false ∧ console w = []
  ∧ Forall (λ t, t = validationToast) (toasts w).
Proof.
  intros Hreach. unfold render; simpl. rewrite negb_true_iff.
  revert w Hreach.
  apply (reachable_invariant
           (λ w, hasSearched (ui w) = false →
                 requests w = [] ∧ inflight w = ∅ ∧ books (ui w) = []
                 ∧ loading (ui w) = false ∧ console w = []
                 ∧ Forall (λ t, t = validationToast) (toasts w))).
  { by repeat split. }
  intros w w' e IH Hstep.
  destruct (step_inv w w' e Hstep)
    as [[_ [[v ->]|[[t ->]| ->]]]|[[_ ->]|(i & o & k & -> & Hk & ->)]];
    try exact IH.
  - destruct (searchBooks_spec w) as [[_ ->]|[(_ & enc & _ & ->)|(_ & _ & ->)]].
    + simpl. intros Hh. destruct (IH Hh) as (? & ? & ? & ? & ? & Ht).
      repeat split; try done. apply Forall_app. split; [done|].
      by apply Forall_singleton.
    + simpl. discriminate.
    + simpl. discriminate.
  - destruct (searchBooks_resume_ui k o (settled i w)) as (-> & _ & _).
    simpl. intros Hh. destruct (IH Hh) as (_ & Hempty & _).
    rewrite Hempty, lookup_empty in Hk. discriminate.
Qed.

Lemma welcome_means_nothing_sent_witness :
  requests (searchBooks blankWorld) = []
  ∧ inflight (searchBooks blankWorld) = ∅
  ∧ books (ui (searchBooks blankWorld)) = []
  ∧ loading (ui (searchBooks blankWorld)) = false
  ∧ console (searchBooks blankWorld) = []
  ∧ Forall (λ t, t = validationToast) (toasts (searchBooks blankWorld)).
Proof.
  apply (welcome_means_nothing_sent (searchBooks blankWorld)).
  - exists [Change (lit "   "); ClickSearch]. reflexivity.
  - reflexivity.
Defined.

(** X10: once a search has been started, the welcome panel is never shown
    again, whatever happens afterwards. *)
Theorem welcome_never_returns (tr : list Event) (w w' : World) :
  hasSearched (ui w) = true →
  exec w tr = Some w' →
  hasSearched (ui w') = true ∧ view_welcome (render (ui w')) = false.
Proof.
  intros Hh Hexec.
  assert (H : hasSearched (ui w') = true).
  { revert Hh Hexec.
    apply (exec_invariant (λ w, hasSearched (ui w) = true)).
    clear. intros w w' e IH Hstep.
    destruct (step_inv w w' e Hstep)
      as [[_ [[v ->]|[[t ->]| ->]]]|[[_ ->]|(i & o & k & -> & Hk & ->)]];
      try exact IH.
    - by destruct (searchBooks_spec w)
        as [[_ ->]|[(_ & enc & _ & ->)|(_ & _ & ->)]].
    - by destruct (searchBooks_resume_ui k o (settled i w)) as (-> & _ & _). }
  unfold render; simpl. by rewrite H.
Qed.

Lemma welcome_never_returns_witness :
  view_welcome
    (render (ui (default tolkienPending
                   (exec tolkienPending
                      [Settle 0 (Rejected networkError); Change []; ClickSearch]))))
  = false.
Proof.
  apply (welcome_never_returns
           [Settle 0 (Rejected networkError); Change []; ClickSearch]
           tolkienPending).
  - reflexivity.
  - vm_compute; reflexivity.
Defined.

(** *** Accounting for notices and requests *)

Lemma step_fresh (w w' : World) (e : Event) :
  (∀ i, is_Some (inflight w !! i) → i < issued w) →
  step w e = Some w' →
  ∀ i, is_Some (inflight w' !! i) → i < issued w'.
Proof.
  intros IH Hstep.
  destruct (step_inv w w' e Hstep)
    as [[_ [[v ->]|[[t ->]| ->]]]|[[_ ->]|(i & o & k & -> & Hk & ->)]];
    try exact IH.
  - destruct (searchBooks_spec w) as [[_ ->]|[(_ & enc & _ & ->)|(_ & _ & ->)]];
      try exact IH.
    simpl. intros j Hj. destruct (decide (issued w = j)) as [<-|Hne]; [lia|].
    rewrite lookup_insert_ne in Hj by done. specialize (IH j Hj). lia.
  - destruct (searchBooks_resume_ui k o (settled i w)) as (_ & _ & ->).
    destruct (searchBooks_resume_logs k o (settled i w)) as (-> & _).
    simpl. intros j Hj. apply IH.
    destruct (decide (i = j)) as [<-|Hne].
    + rewrite lookup_delete_eq in Hj. by destruct Hj.
    + by rewrite lookup_delete_ne in Hj.
Qed.

Lemma step_account (w w' : World) (e : Event) :
  (∀ i, is_Some (inflight w !! i) → i < issued w) →
  step w e = Some w' →
  length (toasts w') + size (inflight w')
  = length (toasts w) + size (inflight w) + (if invokesSearch e then 1 else 0)
  ∧ length (requests w')
    ≤ length (requests w) + (if invokesSearch e then 1 else 0).
Proof.
  intros Hfresh Hstep.
  destruct (step_inv w w' e Hstep)
    as [[He Hw]|[[He ->]|(i & o & k & -> & Hk & ->)]].
  - assert (invokesSearch e = false) as ->.
    { destruct e; try done. simpl in *. by apply negb_true_iff in He. }
    destruct Hw as [[v ->]|[[t ->]| ->]]; simpl; lia.
  - rewrite He.
    destruct (searchBooks_spec w) as [[_ ->]|[(_ & enc & _ & ->)|(_ & _ & ->)]];
      simpl; rewrite ?length_app; simpl; [lia| |lia].
    rewrite map_size_insert_None; [lia|].
    destruct (inflight w !! issued w) eqn:Hi; [|done].
    assert (issued w < issued w); [|lia]. apply Hfresh. by rewrite Hi.
  - destruct (searchBooks_resume_ui k o (settled i w)) as (_ & _ & ->).
    destruct (searchBooks_resume_logs k o (settled i w)) as (_ & [t ->] & _).
    rewrite searchBooks_resume_requests. simpl.
    rewrite map_size_delete_Some by (by rewrite Hk).
    assert (0 < size (inflight w)).
    { destruct (size (inflight w)) eqn:Hz; [|lia].
      apply map_size_empty_inv in Hz. rewrite Hz, lookup_empty in Hk. done. }
    rewrite length_app. simpl. lia.
Qed.

Lemma exec_account (tr : list Event) (w w' : World) :
  (∀ i, is_Some (inflight w !! i) → i < issued w) →
  exec w tr = Some w' →
  length (toasts w') + size (inflight w')
  = length (toasts w) + size (inflight w) + invocations tr
  ∧ length (requests w') ≤ length (requests w) + invocations tr.
Proof.
  revert w. induction tr as [|e tr IH]; simpl; intros w Hfresh Hexec.
  - injection Hexec as <-. lia.
  - destruct (step w e) as [w1|] eqn:Hstep; [|done].
    destruct (step_account w w1 e Hfresh Hstep) as [H1 H2].
    destruct (IH w1 (step_fresh w w1 e Hfresh Hstep) Hexec) as [H3 H4].
    lia.
Qed.

(** X11: every invocation of a search ends in exactly one notice: after any run
    from the initial state, the notices raised and the calls still in
    flight together are as many as the invocations so far (clicks on the
    search button and presses of Enter); and at most one request was sent
    per invocation. *)
Theorem one_notice_per_search (tr : list Event) (w : World) :
  exec initialWorld tr = Some w →
  length (toasts w) + size (inflight w) = invocations tr
  ∧ length (requests w) ≤ invocations tr.
Proof.
  intros Hexec.
  destruct (exec_account tr initialWorld w) as [H1 H2]; [|done|].
  - intros i [k Hk]. simpl in Hk. by rewrite lookup_empty in Hk.
  - simpl in *. by rewrite map_size_empty in H1.
Qed.

Lemma one_notice_per_search_witness :
  length (toasts failingWorld) + size (inflight failingWorld) = 2
  ∧ length (requests failingWorld) ≤ 2.
Proof.
  apply (one_notice_per_search failingTrace failingWorld).
  vm_compute; reflexivity.
Defined.

(** X12: the component talks to the catalog only: every request of every
    reachable state is a GET whose URL starts with the search endpoint and
    ends with [&limit=20]. *)
Theorem requests_only_to_catalog (w : World) :
  reachable w → Forall catalogRequest (requests w).
Proof.
  revert w.
  apply (reachable_invariant (λ w, Forall catalogRequest (requests w))).
  { constructor. }
  intros w w' e IH Hstep.
  destruct (step_inv w w' e Hstep)
    as [[_ [[v ->]|[[t ->]| ->]]]|[[_ ->]|(i & o & k & -> & Hk & ->)]];
    try exact IH.
  - destruct (searchBooks_spec w) as [[_ ->]|[(_ & enc & _ & ->)|(_ & _ & ->)]];
      try exact IH.
    simpl. apply Forall_app. split; [exact IH|].
    apply Forall_singleton. split; [done|].
    exists (searchParam (searchType (ui w)) ++ lit "=" ++ enc). simpl.
    unfold searchUrl, catalogEndpoint. by rewrite <- !app_assoc.
  - by rewrite searchBooks_resume_requests.
Qed.

Lemma requests_only_to_catalog_witness :
  Forall catalogRequest (requests overlapWorld).
Proof.
  apply (requests_only_to_catalog overlapWorld).
  exists overlapTrace. reflexivity.
Defined.

(** *** The search type of a pending search *)

(** X13: the "No books found" notice names the search type that was selected
    when the search was started, not the one selected when the response
    arrives: changing the type while the search is pending changes the
    selection but not the notice. *)
Theorem notice_names_type_at_start
    (w : World) (t' : SearchType) (data : SearchResponse) :
  trim (searchQuery (ui w)) ≠ [] →
  wellFormed (searchQuery (ui w)) = true →
  docs data = [] →
  ∃ w',
    exec w [KeyPress (lit "Enter"); SelectType t'; Settle (issued w) (ok data)]
    = Some w'
    ∧ searchType (ui w') = t'
    ∧ toasts w' = toasts w ++ [noBooksToast (searchType (ui w))].
Proof.
  intros Ht Hwf Hd.
  destruct (searchBooks_spec w) as [[Hb _]|[(_ & enc & _ & Hs)|(_ & Hnone & _)]].
  - by apply trim_blank in Hb.
  - cbn [exec]. rewrite enter_invokes, Hs. cbn [step].
    cbn [setSearchType withUi fetch inflight].
    rewrite lookup_insert_eq.
    eexists. split; [reflexivity|].
    unfold searchBooks_resume, ok. cbn [searchBooks_await]. by rewrite Hd.
  - apply encodeURIComponent_wellFormed in Hwf as [? ?]. congruence.
Qed.

Lemma notice_names_type_at_start_witness :
  ∃ w',
    exec tolkienWorld
      [KeyPress (lit "Enter"); SelectType Subject; Settle 0 (ok noDocs)]
    = Some w'
    ∧ searchType (ui w') = Subject
    ∧ toasts w' = [noBooksToast Author].
Proof.
  apply (notice_names_type_at_start tolkienWorld Subject noDocs);
    [done | reflexivity | reflexivity].
Defined.

(** ** More about cards *)

Lemma lit_inj (s t : string) : lit s = lit t → s = t.
Proof.
  unfold lit. intros H.
  rewrite <- (String.string_of_list_ascii_of_string s),
          <- (String.string_of_list_ascii_of_string t).
  f_equal. revert H.
  generalize (String.list_ascii_of_string s) (String.list_ascii_of_string t).
  intros l. induction l as [|a l IH]; intros [|b k]; simpl; try done.
  intros [= Hab Hlk]. f_equal; [|by apply IH].
  by rewrite <- (Ascii.ascii_N_embedding a), Hab, Ascii.ascii_N_embedding.
Qed.

(** Distinct integers have distinct numerals. *)
Lemma ofZ_inj (a b : Z) : ofZ a = ofZ b → a = b.
Proof.
  unfold ofZ. intros H%lit_inj.
  apply DecimalZ.to_int_inj.
  destruct (to_int_not_nil a) as [Ha1 Ha2], (to_int_not_nil b) as [Hb1 Hb2].
  pose proof (NilZero.isi _ Ha1 Ha2) as Ha.
  pose proof (NilZero.isi _ Hb1 Hb2) as Hb.
  rewrite H in Ha. congruence.
Qed.

(** X14: [getCoverUrl] gives distinct URLs to distinct covers and sizes, so the
    images of two records with different (non-zero) cover ids are never
    fetched from the same URL. *)
Theorem cover_url_identifies_cover
    (coverId coverId' : Z) (size size' : Size) :
  getCoverUrl coverId size = getCoverUrl coverId' size' →
  coverId = coverId' ∧ size = size'.
Proof.
  unfold getCoverUrl. intros H%app_inv_head.
  apply app_inj_2 in H as [Hid Htag].
  - split; [by apply ofZ_inj|]. by destruct size, size'.
  - by destruct size, size'.
Qed.

Lemma cover_url_identifies_cover_witness :
  (12345 = 12345)%Z ∧ SizeM = SizeM.
Proof.
  apply (cover_url_identifies_cover 12345 12345 SizeM SizeM). reflexivity.
Defined.

(** X15: the author line of a card: none for a record without authors (field
    absent or empty list); the first author alone when there is one; the
    first author followed by [" +n more"], n the number of the others, when
    there are several. *)
Theorem author_line (b : Book) :
  (author_name b = None ∨ author_name b = Some [] →
     card_authors (renderCard b) = None)
  ∧ (∀ first, author_name b = Some [first] →
       card_authors (renderCard b) = Some first)
  ∧ (∀ first others, author_name b = Some (first :: others) → others ≠ [] →
       card_authors (renderCard b)
       = Some (first ++ lit " +" ++ ofNat (length others) ++ lit " more")).
Proof.
  unfold renderCard, renderAuthors; simpl. repeat split.
  - by intros [-> | ->].
  - intros first ->. simpl. by rewrite app_nil_r.
  - intros first others -> Hne. destruct others as [|second others]; [done|].
    simpl length. change (1 <? S (S (length others)))%nat with true.
    cbv iota. do 4 f_equal; lia.
Qed.

Lemma author_line_witness :
  card_authors (renderCard threeAuthors) = Some (lit "J.R.R. Tolkien +2 more").
Proof.
  destruct (author_line threeAuthors) as (_ & _ & Hmany).
  rewrite (Hmany (lit "J.R.R. Tolkien") [lit "Alan Lee"; lit "Douglas Anderson"]);
    [reflexivity | reflexivity | done].
Defined.

(** X16: whenever the results grid is rendered it has one card per stored
    record, in the order of the records and never empty; each card carries
    its record's key and title and links to the catalog page of that
    record, the fixed host followed by the key, so two cards with the same
    link belong to records with the same key. *)
Theorem grid_mirrors_records (s : State) (cards : list CardView) :
  view_results (render s) = Some cards →
  cards ≠ []
  ∧ length cards = length (books s)
  ∧ map card_key cards = map key (books s)
  ∧ map card_title cards = map title (books s)
  ∧ map card_href cards
    = map (λ b, lit "https://openlibrary.org" ++ key b) (books s)
  ∧ (∀ c1 c2, c1 ∈ cards → c2 ∈ cards →
       card_href c1 = card_href c2 → card_key c1 = card_key c2).
Proof.
  unfold render; simpl.
  destruct (negb (loading s) && hasSearched s && (0 <? length (books s))%nat)
    eqn:Hshown; [|done].
  intros [= <-]. apply andb_prop in Hshown as [_ Hlen%Nat.ltb_lt].
  repeat split.
  - destruct (books s); [simpl in Hlen; lia | done].
  - apply length_map.
  - by rewrite <- list_fmap_compose.
  - by rewrite <- list_fmap_compose.
  - by rewrite <- list_fmap_compose.
  - intros c1 c2 (b1 & -> & _)%list_elem_of_fmap (b2 & -> & _)%list_elem_of_fmap.
    simpl. unfold getBookUrl. by intros ?%app_inv_head.
Qed.

Lemma grid_mirrors_records_witness :
  length (map renderCard (docs fiveDocs)) = 5
  ∧ map card_href (map renderCard (docs fiveDocs))
    = [lit "https://openlibrary.org/works/1"; lit "https://openlibrary.org/works/2";
       lit "https://openlibrary.org/works/3"; lit "https://openlibrary.org/works/4";
       lit "https://openlibrary.org/works/5"].
Proof.
  destruct (grid_mirrors_records
              {| searchQuery := lit "Tolkien"; searchType := Author;
                 books := docs fiveDocs; loading := false; hasSearched := true |}
              (map renderCard (docs fiveDocs)))
    as (_ & Hlen & _ & _ & Hhref & _); [reflexivity|].
  rewrite Hlen, Hhref. by split.
Defined.

(** ** Searching with the button only *)

Lemma step_single_flight (w w' : World) (e : Event) :
  notEnter e = true →
  size (inflight w) ≤ 1 ∧ (loading (ui w) = false → inflight w = ∅) →
  step w e = Some w' →
  size (inflight w') ≤ 1 ∧ (loading (ui w') = false → inflight w' = ∅).
Proof.
  intros He [Hsize Hidle].
  destruct e as [v|t| |key|i o]; simpl in *.
  - by intros [= <-].
  - by intros [= <-].
  - destruct (loading (ui w)) eqn:Hl; [done|]. intros [= <-].
    specialize (Hidle eq_refl).
    destruct (searchBooks_spec w) as [[_ ->]|[(_ & enc & _ & ->)|(_ & _ & ->)]];
      simpl.
    + rewrite Hidle, map_size_empty. split; [lia | done].
    + rewrite Hidle, map_size_insert_None, map_size_empty by apply lookup_empty.
      split; [lia | discriminate].
    + rewrite Hidle, map_size_empty. split; [lia | done].
  - apply negb_true_iff, bool_decide_eq_false in He.
    unfold handleKeyPress. rewrite decide_False by done. by intros [= <-].
  - destruct (inflight w !! i) as [k|] eqn:Hk; [|done]. intros [= <-].
    destruct (searchBooks_resume_ui k o (settled i w)) as (_ & _ & ->). simpl.
    assert (Hgone : size (delete i (inflight w)) = 0).
    { rewrite map_size_delete_Some by (by rewrite Hk). lia. }
    split; [lia|]. intros _. by apply map_size_empty_inv.
Qed.

(** X17: the disabled button alone keeps searches from overlapping: in a run
    from the initial state in which Enter is never pressed, at most one
    call is in flight at any time, and none while the loading flag is
    clear.  Overlapping searches need the Enter key, which is not guarded
    by the loading flag. *)
Theorem button_alone_never_overlaps (tr : list Event) (w : World) :
  forallb notEnter tr = true →
  exec initialWorld tr = Some w →
  size (inflight w) ≤ 1 ∧ (loading (ui w) = false → inflight w = ∅).
Proof.
  assert (H : ∀ tr w0 w,
            forallb notEnter tr = true →
            size (inflight w0) ≤ 1 ∧ (loading (ui w0) = false → inflight w0 = ∅) →
            exec w0 tr = Some w →
            size (inflight w) ≤ 1 ∧ (loading (ui w) = false → inflight w = ∅)).
  { clear. intros tr. induction tr as [|e tr IH]; simpl; intros w0 w Htr Hw0 Hexec.
    - by injection Hexec as <-.
    - apply andb_prop in Htr as [He Htr].
      destruct (step w0 e) as [w1|] eqn:Hstep; [|done].
      apply (IH w1 w Htr); [|done].
      exact (step_single_flight w0 w1 e He Hw0 Hstep). }
  intros Htr. apply H; [done|]. simpl. rewrite map_size_empty.
  split; [lia | done].
Qed.

Lemma button_alone_never_overlaps_witness :
  size (inflight tolkienPending) ≤ 1
  ∧ (loading (ui tolkienPending) = false → inflight tolkienPending = ∅).
Proof.
  apply (button_alone_never_overlaps tolkienTrace tolkienPending);
    reflexivity.
Defined.

(** With Enter, two calls are in flight at once. *)
Example enter_overlaps : size (inflight overlapWorld) = 2.
Proof. reflexivity. Qed.
